(** * bleak: the CoreBluetooth GATT client and the server base class

    A shallow embedding of
      - [bleak/backends/corebluetooth/client.py] (class
        [BleakClientCoreBluetooth]) and
      - [bleak/backends/server.py] (class [BaseBleakServer]),
    together with the properties of the UUID normaliser, of service
    discovery, of the lookup operations and of the server's scoped
    start/stop bracket.

    Coroutines are embedded in a state-and-exception monad over the client
    object: an [await] is sequential composition, a [raise] is the [Raise]
    result, and every call that leaves the client for the native delegate is
    appended to a trace kept beside the object's fields.  *)

From Stdlib Require Import ZArith NArith Ascii String List Lia DecimalString.
From stdpp Require Import base option list strings gmap fin_maps.

Local Open Scope string_scope.
Local Open Scope Z_scope.

(** ** Python values used by the client *)

Module Py.

(** [str.upper] on one character; the model covers ASCII, which is what a
    UUID string or a device address consists of. *)
Definition upper_ascii (c : ascii) : ascii :=
  let n := N_of_ascii c in
  if ((97 <=? n) && (n <=? 122))%N then ascii_of_N (n - 32) else c.

Fixpoint upper (s : string) : string :=
  match s with
  | EmptyString => EmptyString
  | String c s' => String (upper_ascii c) (upper s')
  end.

(** [s[lo:hi]] for non-negative bounds: clipped at the end of [s]. *)
Definition slice (lo hi : nat) (s : string) : string :=
  substring lo (hi - lo) s.

(** [int.from_bytes(bs, byteorder='big')] *)
Definition from_bytes_big (bs : list Byte.byte) : Z :=
  fold_left (fun acc b => acc * 256 + Z.of_N (Byte.to_N b)) bs 0.

(** [int.from_bytes(bs, byteorder='little')] *)
Fixpoint from_bytes_little (bs : list Byte.byte) : Z :=
  match bs with
  | [] => 0
  | b :: bs' => Z.of_N (Byte.to_N b) + 256 * from_bytes_little bs'
  end.

Definition hex_digit_lower (n : N) : ascii :=
  if (n <? 10)%N then ascii_of_N (48 + n) else ascii_of_N (87 + n).

(** [format(x, 'x')] for a byte value [x]: one or two lower-case digits. *)
Definition format_x (b : Byte.byte) : string :=
  let n := Byte.to_N b in
  if (n <? 16)%N then String (hex_digit_lower n) EmptyString
  else String (hex_digit_lower (n / 16))
         (String (hex_digit_lower (n mod 16)) EmptyString).

(** ["{}".format(i)] for an integer [i]. *)
Definition format_int (i : Z) : string :=
  NilZero.string_of_int (Z.to_int i).

(** An object handed to [get_characteristic] and to [str.format]: a string,
    or a coroutine object that was created but never awaited. *)
Inductive value :=
| Str (s : string)
| Coroutine (qualname : string).

(** ["{}".format(v)]; CPython's text for a coroutine object also carries the
    object's address, which the model leaves out. *)
Definition format_value (v : value) : string :=
  match v with
  | Str s => s
  | Coroutine q => "<coroutine object " ++ q ++ ">"
  end.

(** Exceptions. *)
Inductive exn :=
| BleakError (msg : string)
| NSException (reason : string)
| IndexError
| AdapterFailure (reason : string).

Inductive Result (A : Type) :=
| Ok (a : A)
| Raise (e : exn).
Arguments Ok {A} a.
Arguments Raise {A} e.

End Py.
Import Py.

(** ** Foundation's [CBUUID], as far as the client uses it

    [CBUUID.alloc().initWithString_(s).data()] gives the octets of the UUID
    written in [s]: two octets for four hex digits, four for eight, sixteen
    for the hyphenated 8-4-4-4-12 form; any other string is refused with an
    [NSException].  The client code below takes the parser as a parameter;
    this is the instance used to run it. *)

Module CBUUID.

Definition hex_val (c : ascii) : option N :=
  let n := N_of_ascii c in
  if ((48 <=? n) && (n <=? 57))%N then Some (n - 48)%N
  else if ((65 <=? n) && (n <=? 70))%N then Some (n - 55)%N
  else if ((97 <=? n) && (n <=? 102))%N then Some (n - 87)%N
  else None.

Fixpoint hex_pairs (cs : list ascii) : option (list Byte.byte) :=
  match cs with
  | [] => Some []
  | h :: l :: rest =>
      hi ← hex_val h;
      lo ← hex_val l;
      b ← Byte.of_N (16 * hi + lo);
      bs ← hex_pairs rest;
      Some (b :: bs)
  | _ => None
  end.

Definition hyphen : ascii := "-"%char.

Definition octets (s : string) : option (list Byte.byte) :=
  let cs := list_ascii_of_string s in
  match length cs with
  | 4%nat | 8%nat => hex_pairs cs
  | 36%nat =>
      if bool_decide (cs !! 8%nat = Some hyphen ∧ cs !! 13%nat = Some hyphen ∧
                      cs !! 18%nat = Some hyphen ∧ cs !! 23%nat = Some hyphen)
      then hex_pairs (take 8 cs ++ take 4 (drop 9 cs) ++ take 4 (drop 14 cs)
                        ++ take 4 (drop 19 cs) ++ drop 24 cs)
      else None
  | _ => None
  end.

Definition data (s : string) : Result (list Byte.byte) :=
  match octets s with
  | Some bs => Ok bs
  | None => Raise (NSException "String does not represent a valid UUID")
  end.

End CBUUID.

(** ** Native CoreBluetooth objects and the delegate

    The objects the delegate hands out are opaque to the client except for
    the accessors it calls on them. *)

Module Native.

Record CBPeripheral := {
  identifier_UUIDString : string;       (* peripheral.identifier().UUIDString() *)
  name : option string                  (* peripheral.name() *)
}.

Record CBService := {
  service_UUIDString : string;          (* service.UUID().UUIDString() *)
  service_ref : N
}.

Record CBCharacteristic := {
  characteristic_UUIDString : string;   (* characteristic.UUID().UUIDString() *)
  characteristic_ref : N
}.

Record CBDescriptor := {
  descriptor_UUIDString : string;
  descriptor_handle : Z
}.

(** An advertisement dictionary; the client reads one NSData entry of it. *)
Abbreviation advertisement_data := (gmap string (list Byte.byte)).

(** A notification callback, by reference. *)
Definition callback := N.

(** The calls the client places on [self.app.central_manager_delegate] and
    on its [connected_peripheral_delegate]. *)
Inductive call :=
| scanForPeripherals_ (timeout : Z)
| connect_ (peripheral : CBPeripheral)
| disconnect
| discoverServices
| discoverCharacteristics_ (service : CBService)
| discoverDescriptors_ (characteristic : CBCharacteristic)
| readCharacteristic_ (characteristic : CBCharacteristic) (use_cached : bool)
| readDescriptor_ (descriptor : CBDescriptor) (use_cached : bool)
| writeCharacteristic_value_ (characteristic : CBCharacteristic) (value : list Byte.byte)
| writeDescriptor_value_ (descriptor : CBDescriptor) (value : list Byte.byte)
| startNotify_cb_ (characteristic : CBCharacteristic) (cb : callback)
| stopNotify_ (characteristic : CBCharacteristic).

(** What the platform answers.  The delegate is not part of the files
    embedded here, so the client is stated over an arbitrary one. *)
Record Delegate := {
  CBUUID_data : string -> Result (list Byte.byte);
  on_scanForPeripherals_ : Z -> Result (list CBPeripheral);
  advertisement_data_list : list advertisement_data;
  on_connect_ : CBPeripheral -> Result bool;
  on_disconnect : Result unit;
  on_discoverServices : Result (list CBService);
  on_discoverCharacteristics_ : CBService -> Result (list CBCharacteristic);
  on_discoverDescriptors_ : CBCharacteristic -> Result (list CBDescriptor);
  on_readCharacteristic_ : CBCharacteristic -> bool -> Result (list Byte.byte);
  on_readDescriptor_ : CBDescriptor -> bool -> Result (list Byte.byte);
  on_writeCharacteristic_value_ : CBCharacteristic -> list Byte.byte -> Result bool;
  on_writeDescriptor_value_ : CBDescriptor -> list Byte.byte -> Result bool;
  on_startNotify_cb_ : CBCharacteristic -> callback -> Result bool;
  on_stopNotify_ : CBCharacteristic -> Result bool
}.

End Native.

(** ** The service collection ([bleak.backends.service]) and its wrappers *)

Module Service.

(** Modelled from the spec: the wrapper classes
    [BleakGATTServiceCoreBluetooth], [BleakGATTCharacteristicCoreBluetooth]
    and [BleakGATTDescriptorCoreBluetooth] are not among the embedded
    files.  Per the data model a service and a characteristic own a UUID
    and the native handle; a descriptor owns the native handle, its numeric
    handle and the UUID of the owning characteristic. *)
Record BleakGATTService := {
  service_obj : Native.CBService;
  service_uuid : string
}.

Record BleakGATTCharacteristic := {
  characteristic_obj : Native.CBCharacteristic;
  characteristic_uuid : string
}.

Record BleakGATTDescriptor := {
  descriptor_obj : Native.CBDescriptor;
  characteristic_uuid_of : string;
  handle : Z
}.

Definition BleakGATTServiceCoreBluetooth (obj : Native.CBService) : BleakGATTService :=
  {| service_obj := obj; service_uuid := Native.service_UUIDString obj |}.

Definition BleakGATTCharacteristicCoreBluetooth (obj : Native.CBCharacteristic)
  : BleakGATTCharacteristic :=
  {| characteristic_obj := obj;
     characteristic_uuid := Native.characteristic_UUIDString obj |}.

Definition BleakGATTDescriptorCoreBluetooth (obj : Native.CBDescriptor)
    (characteristic_uuid : string) : BleakGATTDescriptor :=
  {| descriptor_obj := obj;
     characteristic_uuid_of := characteristic_uuid;
     handle := Native.descriptor_handle obj |}.

(** Modelled from the spec: [BleakGATTServiceCollection] is not among the
    embedded files.  It is a mapping from UUID to service, a mapping from
    UUID to characteristic (flattened across services) and a mapping from
    integer handle to descriptor; the mutators only add, and a key added
    twice keeps the last entry. *)
Record BleakGATTServiceCollection := {
  services : gmap string BleakGATTService;
  characteristics : gmap string BleakGATTCharacteristic;
  descriptors : gmap Z BleakGATTDescriptor
}.

Definition empty : BleakGATTServiceCollection :=
  {| services := ∅; characteristics := ∅; descriptors := ∅ |}.

Definition add_service (s : BleakGATTService) (c : BleakGATTServiceCollection) :=
  {| services := <[service_uuid s := s]> (services c);
     characteristics := characteristics c;
     descriptors := descriptors c |}.

Definition add_characteristic (ch : BleakGATTCharacteristic)
    (c : BleakGATTServiceCollection) :=
  {| services := services c;
     characteristics := <[characteristic_uuid ch := ch]> (characteristics c);
     descriptors := descriptors c |}.

Definition add_descriptor (d : BleakGATTDescriptor) (c : BleakGATTServiceCollection) :=
  {| services := services c;
     characteristics := characteristics c;
     descriptors := <[handle d := d]> (descriptors c) |}.

(** A lookup by a key that is not a string (a coroutine object) finds
    nothing: no UUID key is equal to it. *)
Definition get_characteristic (c : BleakGATTServiceCollection) (_uuid : value)
  : option BleakGATTCharacteristic :=
  match _uuid with
  | Str s => characteristics c !! s
  | Coroutine _ => None
  end.

Definition get_descriptor (c : BleakGATTServiceCollection) (h : Z)
  : option BleakGATTDescriptor :=
  descriptors c !! h.

End Service.

(** [bleak.backends.device.BLEDevice] *)
Record BLEDevice := {
  address : string;
  name : string;
  details : Native.CBPeripheral;
  manufacturer_data : gmap Z string
}.

(** ** The client object and its coroutines *)

Module Client.

Import Service.

(** What is observed of a run: calls placed on the native delegate, and
    additions to the service collection, in the order they happen. *)
Inductive event :=
| Call (c : Native.call)
| AddService (s : BleakGATTService)
| AddCharacteristic (ch : BleakGATTCharacteristic)
| AddDescriptor (d : BleakGATTDescriptor).

Definition is_call (e : event) : bool :=
  match e with Call _ => true | _ => false end.

Definition is_discovery_call (e : event) : bool :=
  match e with
  | Call Native.discoverServices
  | Call (Native.discoverCharacteristics_ _)
  | Call (Native.discoverDescriptors_ _) => true
  | _ => false
  end.

(** The fields of [BleakClientCoreBluetooth] the coroutines touch, the
    delegate's connection flag, and the trace.  [self_address] is
    [self.address] and [self_services] is [self.services]; they and
    [_services_resolved] come from the base class.  [_requester] and
    [_callbacks] are set in [__init__] and never read. *)
Record t := {
  self_address : string;
  _device_info : option Native.CBPeripheral;
  _services : option BleakGATTServiceCollection;
  self_services : BleakGATTServiceCollection;
  _services_resolved : bool;
  isConnected : bool;
  trace : list event
}.

(** [__init__] *)
Definition init (address : string) : t :=
  {| self_address := address;
     _device_info := None;
     _services := None;
     self_services := Service.empty;
     _services_resolved := false;
     isConnected := false;
     trace := [] |}.

Definition set__device_info (v : option Native.CBPeripheral) (c : t) : t :=
  {| self_address := self_address c; _device_info := v;
     _services := _services c; self_services := self_services c;
     _services_resolved := _services_resolved c;
     isConnected := isConnected c; trace := trace c |}.

Definition set_services (v : BleakGATTServiceCollection) (c : t) : t :=
  {| self_address := self_address c; _device_info := _device_info c;
     _services := _services c; self_services := v;
     _services_resolved := _services_resolved c;
     isConnected := isConnected c; trace := trace c |}.

Definition set__services_resolved (v : bool) (c : t) : t :=
  {| self_address := self_address c; _device_info := _device_info c;
     _services := _services c; self_services := self_services c;
     _services_resolved := v;
     isConnected := isConnected c; trace := trace c |}.

Definition set_isConnected (v : bool) (c : t) : t :=
  {| self_address := self_address c; _device_info := _device_info c;
     _services := _services c; self_services := self_services c;
     _services_resolved := _services_resolved c;
     isConnected := v; trace := trace c |}.

Definition emit (e : event) (c : t) : t :=
  {| self_address := self_address c; _device_info := _device_info c;
     _services := _services c; self_services := self_services c;
     _services_resolved := _services_resolved c;
     isConnected := isConnected c; trace := trace c ++ [e] |}.

(** *** Coroutines: state and exceptions *)

Definition M (A : Type) : Type := t -> Result A * t.

Definition ret {A} (a : A) : M A := fun c => (Ok a, c).

Definition bind {A B} (m : M A) (k : A -> M B) : M B :=
  fun c => match m c with
           | (Ok a, c') => k a c'
           | (Raise e, c') => (Raise e, c')
           end.

Definition raise {A} (e : exn) : M A := fun c => (Raise e, c).

Definition gets {A} (f : t -> A) : M A := fun c => (Ok (f c), c).

Definition modify (f : t -> t) : M unit := fun c => (Ok tt, f c).

(** The outcome of a library call that does not go to the delegate. *)
Definition lift {A} (r : Result A) : M A := fun c => (r, c).

(** [await delegate.call(...)]: the call is recorded, then its answer is
    the coroutine's value or exception. *)
Definition await {A} (call : Native.call) (answer : Result A) : M A :=
  fun c => (answer, emit (Call call) c).

Declare Scope py_scope.
Delimit Scope py_scope with py.
Notation "x <- m ;; k" := (bind m (fun x => k))
  (at level 100, m at next level, right associativity) : py_scope.
Notation "m ;; k" := (bind m (fun _ => k))
  (at level 100, right associativity) : py_scope.
Local Open Scope py_scope.

(** [for x in xs: body] *)
Fixpoint for_each {A} (xs : list A) (body : A -> M unit) : M unit :=
  match xs with
  | [] => ret tt
  | x :: xs' => body x ;; for_each xs' body
  end.

(** The collection's mutators, applied to [self.services]. *)
Definition services_add_service (s : BleakGATTService) : M unit :=
  modify (fun c => emit (AddService s) (set_services (add_service s (self_services c)) c)).

Definition services_add_characteristic (ch : BleakGATTCharacteristic) : M unit :=
  modify (fun c => emit (AddCharacteristic ch)
                     (set_services (add_characteristic ch (self_services c)) c)).

Definition services_add_descriptor (d : BleakGATTDescriptor) : M unit :=
  modify (fun c => emit (AddDescriptor d)
                     (set_services (add_descriptor d (self_services c)) c)).

Section Methods.

Variable app : Native.Delegate.

(** [convert_uuid_to_int] *)
Definition convert_uuid_to_int (_uuid : string) : M Z :=
  UUID_bytes <- lift (Native.CBUUID_data app _uuid) ;;
  ret (from_bytes_big UUID_bytes).

Definition test_uuid : string := "0000FFFF-0000-1000-8000-00805F9B34FB".

(** [is_uuid_16bit_compatible] *)
Definition is_uuid_16bit_compatible (_uuid : string) : M bool :=
  test_int <- convert_uuid_to_int test_uuid ;;
  uuid_int <- convert_uuid_to_int _uuid ;;
  let result_int := Z.land uuid_int test_int in
  ret (uuid_int =? result_int).

(** [get_appropriate_uuid] *)
Definition get_appropriate_uuid (_uuid : string) : M string :=
  if (String.length _uuid =? 4)%nat then ret (upper _uuid)
  else
    compatible <- is_uuid_16bit_compatible _uuid ;;
    if compatible then ret (upper (slice 4 8 _uuid))
    else ret (upper _uuid).

(** Modelled from the spec: the delegate's [connect_], [disconnect] and
    [isConnected] are not among the embedded files.  Per the connection
    state machine of section 4.3 the session is connected once [connect_]
    has returned and disconnected once [disconnect] has. *)
Definition delegate_connect_ (peripheral : Native.CBPeripheral) : M bool :=
  success <- await (Native.connect_ peripheral) (Native.on_connect_ app peripheral) ;;
  modify (set_isConnected true) ;;
  ret success.

Definition delegate_disconnect : M unit :=
  await Native.disconnect (Native.on_disconnect app) ;;
  modify (set_isConnected false).

(** [is_connected] *)
Definition is_connected : M bool := gets isConnected.

(** [disconnect] *)
Definition disconnect : M bool :=
  delegate_disconnect ;;
  ret true.

(** The manufacturer value of [scan_for_devices]: every octet after the
    first two as two lower-case hex digits. *)
Definition manufacturer_value (bs : list Byte.byte) : string :=
  String.concat ""
    (map (fun x => if (String.length (format_x x) =? 2)%nat then format_x x
                   else "0" ++ format_x x)
         (drop 2 bs)).

(** One round of the loop of [scan_for_devices] at index [i]; [found] is
    the list built so far.  [if manufacturer_binary_data:] holds for data
    that is there and not empty; the [append] is inside that branch. *)
Definition scan_step (i : nat) (peripheral : Native.CBPeripheral)
    (found : list BLEDevice) : Result (list BLEDevice) :=
  let address := Native.identifier_UUIDString peripheral in
  let name := match Native.name peripheral with
              | Some n => if (String.length n =? 0)%nat then "Unknown" else n
              | None => "Unknown"
              end in
  let details := peripheral in
  match Native.advertisement_data_list app !! i with
  | None => Raise IndexError
  | Some advertisement_data =>
      let manufacturer_binary_data :=
        advertisement_data !! "kCBAdvDataManufacturerData" in
      match manufacturer_binary_data with
      | Some (b :: bs) =>
          let manufacturer_id := from_bytes_little (take 2 (b :: bs)) in
          let manufacturer_value := manufacturer_value (b :: bs) in
          let manufacturer_data : gmap Z string :=
            {[ manufacturer_id := manufacturer_value ]} in
          Ok (found ++ [ {| address := address; name := name; details := details;
                            manufacturer_data := manufacturer_data |} ])%list
      | _ => Ok found
      end
  end.

Fixpoint scan_loop (i : nat) (peripherals : list Native.CBPeripheral)
    (found : list BLEDevice) : Result (list BLEDevice) :=
  match peripherals with
  | [] => Ok found
  | peripheral :: rest =>
      match scan_step i peripheral found with
      | Ok found' => scan_loop (S i) rest found'
      | Raise e => Raise e
      end
  end.

(** [scan_for_devices] *)
Definition scan_for_devices (timeout : Z) : M (list BLEDevice) :=
  peripherals <- await (Native.scanForPeripherals_ timeout)
                   (Native.on_scanForPeripherals_ app timeout) ;;
  lift (scan_loop 0 peripherals []).

(** [get_services] *)
Definition get_services : M BleakGATTServiceCollection :=
  cached <- gets _services ;;
  match cached with
  | Some collection => ret collection
  | None =>
      services <- await Native.discoverServices (Native.on_discoverServices app) ;;
      for_each services (fun service =>
        characteristics <- await (Native.discoverCharacteristics_ service)
                             (Native.on_discoverCharacteristics_ app service) ;;
        services_add_service (BleakGATTServiceCoreBluetooth service) ;;
        for_each characteristics (fun characteristic =>
          descriptors <- await (Native.discoverDescriptors_ characteristic)
                           (Native.on_discoverDescriptors_ app characteristic) ;;
          services_add_characteristic
            (BleakGATTCharacteristicCoreBluetooth characteristic) ;;
          for_each descriptors (fun descriptor =>
            services_add_descriptor
              (BleakGATTDescriptorCoreBluetooth descriptor
                 (Native.characteristic_UUIDString characteristic))))) ;;
      modify (set__services_resolved true) ;;
      gets self_services
  end.

(** [connect] *)
Definition connect : M bool :=
  devices <- scan_for_devices 10 ;;
  self_addr <- gets self_address ;;
  let sought_device :=
    List.filter (fun x => String.eqb (upper (address x)) (upper self_addr)) devices in
  match sought_device with
  | [] => raise (BleakError ("Device with address " ++ self_addr ++ " was not found"))
  | first :: _ =>
      modify (set__device_info (Some (details first))) ;;
      delegate_connect_ (details first) ;;
      get_services ;;
      ret true
  end.

(** [read_gatt_char]; the value is the octets of the NSData the delegate
    answers with. *)
Definition read_gatt_char (_uuid : string) (use_cached : bool) : M (list Byte.byte) :=
  _uuid <- get_appropriate_uuid _uuid ;;
  characteristic <- gets (fun c => get_characteristic (self_services c) (Str _uuid)) ;;
  match characteristic with
  | None => raise (BleakError ("Characteristic " ++ format_value (Str _uuid)
                                 ++ " was not found!"))
  | Some characteristic =>
      await (Native.readCharacteristic_ (characteristic_obj characteristic) use_cached)
        (Native.on_readCharacteristic_ app (characteristic_obj characteristic) use_cached)
  end.

(** [read_gatt_descriptor] *)
Definition read_gatt_descriptor (handle : Z) (use_cached : bool) : M (list Byte.byte) :=
  descriptor <- gets (fun c => get_descriptor (self_services c) handle) ;;
  match descriptor with
  | None => raise (BleakError ("Descriptor " ++ format_int handle ++ " was not found!"))
  | Some descriptor =>
      await (Native.readDescriptor_ (descriptor_obj descriptor) use_cached)
        (Native.on_readDescriptor_ app (descriptor_obj descriptor) use_cached)
  end.

(** [write_gatt_char]; the body never reads [response]. *)
Definition write_gatt_char (_uuid : string) (data : list Byte.byte) (response : bool)
  : M unit :=
  _uuid <- get_appropriate_uuid _uuid ;;
  characteristic <- gets (fun c => get_characteristic (self_services c) (Str _uuid)) ;;
  match characteristic with
  | None => raise (BleakError ("Characteristic " ++ format_value (Str _uuid)
                                 ++ " was not found!"))
  | Some characteristic =>
      let value := data in
      await (Native.writeCharacteristic_value_ (characteristic_obj characteristic) value)
        (Native.on_writeCharacteristic_value_ app
           (characteristic_obj characteristic) value) ;;
      ret tt
  end.

(** [write_gatt_descriptor] *)
Definition write_gatt_descriptor (handle : Z) (data : list Byte.byte) : M unit :=
  descriptor <- gets (fun c => get_descriptor (self_services c) handle) ;;
  match descriptor with
  | None => raise (BleakError ("Descriptor " ++ format_int handle ++ " was not found!"))
  | Some descriptor =>
      let value := data in
      await (Native.writeDescriptor_value_ (descriptor_obj descriptor) value)
        (Native.on_writeDescriptor_value_ app (descriptor_obj descriptor) value) ;;
      ret tt
  end.

(** [start_notify] *)
Definition start_notify (_uuid : string) (callback : Native.callback) : M unit :=
  _uuid <- get_appropriate_uuid _uuid ;;
  characteristic <- gets (fun c => get_characteristic (self_services c) (Str _uuid)) ;;
  match characteristic with
  | None => raise (BleakError ("Characteristic " ++ format_value (Str _uuid)
                                 ++ " not found!"))
  | Some characteristic =>
      await (Native.startNotify_cb_ (characteristic_obj characteristic) callback)
        (Native.on_startNotify_cb_ app (characteristic_obj characteristic) callback) ;;
      ret tt
  end.

(** [stop_notify]: [self.get_appropriate_uuid(_uuid)] is called without
    [await], so [_uuid] is rebound to the coroutine object and the
    normaliser's body does not run. *)
Definition stop_notify (_uuid : string) : M unit :=
  let _uuid := Coroutine "BleakClientCoreBluetooth.get_appropriate_uuid" in
  characteristic <- gets (fun c => get_characteristic (self_services c) _uuid) ;;
  match characteristic with
  | None => raise (BleakError ("Characteristic " ++ format_value _uuid ++ " not found!"))
  | Some characteristic =>
      await (Native.stopNotify_ (characteristic_obj characteristic))
        (Native.on_stopNotify_ app (characteristic_obj characteristic)) ;;
      ret tt
  end.

End Methods.

End Client.

(** ** The server base class ([bleak/backends/server.py]) *)

Module Server.

(** The abstract methods of [BaseBleakServer]; a backend supplies them
    over its own state [S]. *)
Class Backend (S : Type) := {
  start : S -> Result bool * S;
  stop : S -> Result bool * S;
  is_connected : S -> bool;
  is_advertising : S -> bool;
  add_service : Service.BleakGATTService -> S -> Result unit * S
}.

(** What is observed of a run of the scoped bracket. *)
Inductive event :=
| Start
| Body
| Stop.

(** The server object: the backend's own state, the service collection of
    the base class, and the trace. *)
Record t (S : Type) := {
  self : S;
  services : Service.BleakGATTServiceCollection;
  trace : list event
}.
Arguments self {S} _.
Arguments services {S} _.
Arguments trace {S} _.

(** [__init__] *)
Definition init {S : Type} (backend_state : S) : t S :=
  {| self := backend_state; services := Service.empty; trace := [] |}.

Section Bracket.

Context {S : Type} `{Backend S}.

Definition M (A : Type) : Type := t S -> Result A * t S.

(** A method or the caller's block run on the server object, recorded
    under the name [e]. *)
Definition run {A} (e : event) (f : S -> Result A * S) : M A :=
  fun o => let (r, s) := f (self o) in
           (r, {| self := s; services := services o; trace := trace o ++ [e] |}).

(** [__aenter__]: [await self.start()], then [return self]. *)
Definition __aenter__ : M S :=
  fun o => match run Start start o with
           | (Ok _, o') => (Ok (self o'), o')
           | (Raise e, o') => (Raise e, o')
           end.

(** [__aexit__]: [await self.stop()]; none of the three arguments is
    read, and the method returns [None]. *)
Definition __aexit__ (exc : option exn) : M unit :=
  fun o => match run Stop stop o with
           | (Ok _, o') => (Ok tt, o')
           | (Raise e, o') => (Raise e, o')
           end.

(** [async with server: body], as the language runs it: the block is
    entered only when [__aenter__] returns; [__aexit__] is awaited when
    the block ends, with the exception if there is one; because
    [__aexit__] returns [None] the block's exception is raised again. *)
Definition async_with {A} (body : S -> Result A * S) : M A :=
  fun o =>
    match __aenter__ o with
    | (Raise e, o1) => (Raise e, o1)
    | (Ok _, o1) =>
        match run Body body o1 with
        | (Ok a, o2) =>
            match __aexit__ None o2 with
            | (Ok _, o3) => (Ok a, o3)
            | (Raise e', o3) => (Raise e', o3)
            end
        | (Raise e, o2) =>
            match __aexit__ (Some e) o2 with
            | (Ok _, o3) => (Raise e, o3)
            | (Raise e', o3) => (Raise e', o3)
            end
        end
    end.

End Bracket.

End Server.

(** ** A heart-rate monitor, to run the code on

    One peripheral with manufacturer data and one without; the first exposes
    service [180D] with characteristic [2A37] and a descriptor of handle
    42. *)

Module Demo.

Definition monitor : Native.CBPeripheral :=
  {| Native.identifier_UUIDString := "7E5A1C0B-33D2-4F6E-9A10-0C2B4D6E8F01";
     Native.name := Some "HRM" |}.

Definition beacon : Native.CBPeripheral :=
  {| Native.identifier_UUIDString := "11112222-3333-4444-5555-666677778888";
     Native.name := None |}.

Definition heart_rate : Native.CBService :=
  {| Native.service_UUIDString := "180D"; Native.service_ref := 1 |}.

Definition measurement : Native.CBCharacteristic :=
  {| Native.characteristic_UUIDString := "2A37"; Native.characteristic_ref := 2 |}.

Definition config : Native.CBDescriptor :=
  {| Native.descriptor_UUIDString := "2902"; Native.descriptor_handle := 42 |}.

Definition delegate : Native.Delegate :=
  {| Native.CBUUID_data := CBUUID.data;
     Native.on_scanForPeripherals_ := fun _ => Ok [beacon; monitor];
     Native.advertisement_data_list :=
       [ ∅ ; {[ "kCBAdvDataManufacturerData" := [Byte.x4c; Byte.x00; Byte.x02; Byte.xa5] ]} ];
     Native.on_connect_ := fun _ => Ok true;
     Native.on_disconnect := Ok tt;
     Native.on_discoverServices := Ok [heart_rate];
     Native.on_discoverCharacteristics_ := fun _ => Ok [measurement];
     Native.on_discoverDescriptors_ := fun _ => Ok [config];
     Native.on_readCharacteristic_ := fun _ _ => Ok [Byte.x00; Byte.x48];
     Native.on_readDescriptor_ := fun _ _ => Ok [Byte.x01; Byte.x00];
     Native.on_writeCharacteristic_value_ := fun _ _ => Ok true;
     Native.on_writeDescriptor_value_ := fun _ _ => Ok true;
     Native.on_startNotify_cb_ := fun _ _ => Ok true;
     Native.on_stopNotify_ := fun _ => Ok true |}.

(** A second peripheral: a thermometer with two services; the first has a
    characteristic with two descriptors and one with none, the second has
    one characteristic with one descriptor. *)
Definition health : Native.CBService :=
  {| Native.service_UUIDString := "1809"; Native.service_ref := 10 |}.
Definition battery : Native.CBService :=
  {| Native.service_UUIDString := "180F"; Native.service_ref := 11 |}.
Definition temperature : Native.CBCharacteristic :=
  {| Native.characteristic_UUIDString := "2A1C"; Native.characteristic_ref := 12 |}.
Definition interval : Native.CBCharacteristic :=
  {| Native.characteristic_UUIDString := "2A21"; Native.characteristic_ref := 13 |}.
Definition level : Native.CBCharacteristic :=
  {| Native.characteristic_UUIDString := "2A19"; Native.characteristic_ref := 14 |}.
Definition indication : Native.CBDescriptor :=
  {| Native.descriptor_UUIDString := "2902"; Native.descriptor_handle := 20 |}.
Definition description : Native.CBDescriptor :=
  {| Native.descriptor_UUIDString := "2901"; Native.descriptor_handle := 21 |}.
Definition format : Native.CBDescriptor :=
  {| Native.descriptor_UUIDString := "2904"; Native.descriptor_handle := 22 |}.

Definition thermometer : Native.Delegate :=
  {| Native.CBUUID_data := CBUUID.data;
     Native.on_scanForPeripherals_ := fun _ => Ok [];
     Native.advertisement_data_list := [];
     Native.on_connect_ := fun _ => Ok true;
     Native.on_disconnect := Ok tt;
     Native.on_discoverServices := Ok [health; battery];
     Native.on_discoverCharacteristics_ := fun s =>
       if (Native.service_ref s =? 10)%N then Ok [temperature; interval] else Ok [level];
     Native.on_discoverDescriptors_ := fun ch =>
       if (Native.characteristic_ref ch =? 12)%N then Ok [indication; description]
       else if (Native.characteristic_ref ch =? 14)%N then Ok [format]
       else Ok [];
     Native.on_readCharacteristic_ := fun _ _ => Ok [];
     Native.on_readDescriptor_ := fun _ _ => Ok [];
     Native.on_writeCharacteristic_value_ := fun _ _ => Ok true;
     Native.on_writeDescriptor_value_ := fun _ _ => Ok true;
     Native.on_startNotify_cb_ := fun _ _ => Ok true;
     Native.on_stopNotify_ := fun _ => Ok true |}.

(** A client for the monitor, addressed in lower case, and one for the
    beacon. *)
Definition client : Client.t := Client.init "7e5a1c0b-33d2-4f6e-9a10-0c2b4d6e8f01".
Definition beacon_client : Client.t := Client.init "11112222-3333-4444-5555-666677778888".

(** The client after [connect]. *)
Definition connected : Client.t := snd (Client.connect delegate client).

(** A server backend that counts how often it was started and stopped and
    refuses a second start. *)
Record counter := { started : nat; stopped : nat }.

#[global] Instance counter_backend : Server.Backend counter :=
  {| Server.start := fun s =>
       match started s with
       | O => (Ok true, {| started := 1; stopped := stopped s |})
       | _ => (Raise (BleakError "already started"), s)
       end;
     Server.stop := fun s => (Ok true, {| started := started s; stopped := S (stopped s) |});
     Server.is_connected := fun _ => false;
     Server.is_advertising := fun s => (stopped s <? started s)%nat;
     Server.add_service := fun _ s => (Ok tt, s) |}.

Definition server : Server.t counter :=
  Server.init {| started := 0; stopped := 0 |}.

(** A block that raises. *)
Definition failing_block (s : counter) : Result unit * counter :=
  (Raise (BleakError "block failed"), s).

End Demo.

(** * Vocabulary of the properties *)

Import Service.

(** ** What every coroutine leaves alone

    [later c c'] relates a client to itself after some coroutine has run:
    the address and the [_services] field are the same and the trace has
    only grown. *)

Record later (c c' : Client.t) : Prop := {
  later_address : Client.self_address c' = Client.self_address c;
  later_cache : Client._services c' = Client._services c;
  later_trace : exists evs, Client.trace c' = (Client.trace c ++ evs)%list
}.

(** A coroutine frames the client when every run of it is [later]. *)
Definition frames {A} (m : Client.M A) : Prop := forall c, later c (snd (m c)).

(** ** Short and full form

    The full form of a 16-bit UUID [x]: the Base UUID with [x] at octets 2
    and 3. *)
Definition full_form (x : string) : string :=
  "0000" ++ x ++ "-0000-1000-8000-00805F9B34FB".

(** Every character is a hex digit. *)
Definition hex_string (x : string) : Prop :=
  Forall (fun ch => is_Some (CBUUID.hex_val ch)) (list_ascii_of_string x).

(** ** The order of discovery *)

(** What a peripheral exposes: its services in the order the delegate
    returns them, each with its characteristics, each with its
    descriptors. *)
Definition characteristic_tree : Type := Native.CBCharacteristic * list Native.CBDescriptor.
Definition service_tree : Type := Native.CBService * list characteristic_tree.

(** The delegate answers the three discovery calls with the lists of the
    tree. *)
Definition exposes (app : Native.Delegate) (services : list service_tree) : Prop :=
  Native.on_discoverServices app = Ok (map fst services) /\
  Forall (fun s : service_tree =>
            Native.on_discoverCharacteristics_ app (fst s) = Ok (map fst (snd s)) /\
            Forall (fun ch : characteristic_tree =>
                      Native.on_discoverDescriptors_ app (fst ch) = Ok (snd ch))
                   (snd s))
         services.

(** The order of section 4.2, written out: for a characteristic, its
    descriptor list is requested, the characteristic is added, then each
    descriptor is added tagged with the characteristic's UUID string; for a
    service, its characteristic list is requested, the service is added,
    then its characteristics are processed one after the other; the service
    list is requested first. *)
Definition characteristic_steps (ch : characteristic_tree) : list Client.event :=
  Client.Call (Native.discoverDescriptors_ (fst ch))
  :: Client.AddCharacteristic (BleakGATTCharacteristicCoreBluetooth (fst ch))
  :: map (fun d => Client.AddDescriptor
                     (BleakGATTDescriptorCoreBluetooth d
                        (Native.characteristic_UUIDString (fst ch))))
       (snd ch).

Definition service_steps (s : service_tree) : list Client.event :=
  Client.Call (Native.discoverCharacteristics_ (fst s))
  :: Client.AddService (BleakGATTServiceCoreBluetooth (fst s))
  :: concat (map characteristic_steps (snd s)).

Definition discovery_order (services : list service_tree) : list Client.event :=
  Client.Call Native.discoverServices :: concat (map service_steps services).

(** The effect of one step on a collection, and of a list of steps. *)
Definition replay (coll : BleakGATTServiceCollection) (e : Client.event)
  : BleakGATTServiceCollection :=
  match e with
  | Client.Call _ => coll
  | Client.AddService s => add_service s coll
  | Client.AddCharacteristic ch => add_characteristic ch coll
  | Client.AddDescriptor d => add_descriptor d coll
  end.

Definition populate (steps : list Client.event) (coll : BleakGATTServiceCollection)
  : BleakGATTServiceCollection :=
  fold_left replay steps coll.

(** The client after the steps: they are on its trace and in its
    collection. *)
Definition perform (steps : list Client.event) (c : Client.t) : Client.t :=
  {| Client.self_address := Client.self_address c;
     Client._device_info := Client._device_info c;
     Client._services := Client._services c;
     Client.self_services := populate steps (Client.self_services c);
     Client._services_resolved := Client._services_resolved c;
     Client.isConnected := Client.isConnected c;
     Client.trace := (Client.trace c ++ steps)%list |}.

(** A device is in the list only for a peripheral whose advertisement, at
    the same index, has manufacturer data; its address is the peripheral's
    identifier. *)
Definition from_advertiser (app : Native.Delegate) (i : nat)
    (peripherals : list Native.CBPeripheral) (d : BLEDevice) : Prop :=
  exists (j : nat) (adv : Native.advertisement_data) (data : list Byte.byte),
    peripherals !! j = Some (details d) /\
    Native.advertisement_data_list app !! (i + j)%nat = Some adv /\
    adv !! "kCBAdvDataManufacturerData" = Some data /\
    address d = Native.identifier_UUIDString (details d).

(** * Further parts of the client *)

(** ** [int.to_bytes] and [convert_int_to_uuid] *)

Module Conversions.

(** [OverflowError], as [int.to_bytes] raises it. *)
Inductive OverflowError :=
| int_too_big_to_convert
| cannot_convert_negative_int.

(** The octet of value [i mod 256]. *)
Definition octet (i : Z) : Byte.byte :=
  match Byte.of_N (Z.to_N (i mod 256)) with
  | Some b => b
  | None => Byte.x00
  end.

(** The [length] low octets of [i], least significant first. *)
Fixpoint octets_little (length : nat) (i : Z) : list Byte.byte :=
  match length with
  | O => []
  | S n => octet i :: octets_little n (i / 256)
  end.

(** [i.to_bytes(length, byteorder='big')] *)
Definition to_bytes_big (length : nat) (i : Z) : OverflowError + list Byte.byte :=
  if i <? 0 then inl cannot_convert_negative_int
  else if 256 ^ Z.of_nat length <=? i then inl int_too_big_to_convert
  else inr (rev (octets_little length i)).

(** [convert_int_to_uuid]; [UUIDString data] stands for
    [CBUUID.alloc().initWithData_(data).UUIDString()], which Foundation
    supplies.  The coroutine touches no field of the client. *)
Definition convert_int_to_uuid (UUIDString : list Byte.byte -> Result string) (i : Z)
  : Client.t -> (OverflowError + Result string) * Client.t :=
  fun c => match to_bytes_big 16 i with
           | inl overflow => (inl overflow, c)
           | inr UUID_bytes => (inr (UUIDString UUID_bytes), c)
           end.

(** An instance of [UUIDString] to run the code on: two or four octets are
    printed as upper-case hex digits, sixteen in the hyphenated 8-4-4-4-12
    form; other data is refused. *)
Definition hex_digit_upper (n : N) : ascii :=
  if (n <? 10)%N then ascii_of_N (48 + n) else ascii_of_N (55 + n).

Definition hex_upper (bs : list Byte.byte) : list ascii :=
  flat_map (fun b => [hex_digit_upper (Byte.to_N b / 16);
                      hex_digit_upper (Byte.to_N b mod 16)]) bs.

Definition UUIDString (bs : list Byte.byte) : Result string :=
  match length bs with
  | 2%nat | 4%nat => Ok (string_of_list_ascii (hex_upper bs))
  | 16%nat =>
      Ok (string_of_list_ascii
            (hex_upper (take 4 bs) ++ CBUUID.hyphen
             :: hex_upper (take 2 (drop 4 bs)) ++ CBUUID.hyphen
             :: hex_upper (take 2 (drop 6 bs)) ++ CBUUID.hyphen
             :: hex_upper (take 2 (drop 8 bs)) ++ CBUUID.hyphen
             :: hex_upper (drop 10 bs))%list)
  | _ => Raise (NSException "Data does not represent a valid UUID")
  end.

End Conversions.

(** ** Sequences of operations *)

(** The public coroutines of the client, with their arguments. *)
Inductive operation :=
| Connect
| Disconnect
| IsConnected
| ScanForDevices (timeout : Z)
| GetServices
| ReadGattChar (_uuid : string) (use_cached : bool)
| ReadGattDescriptor (handle : Z) (use_cached : bool)
| WriteGattChar (_uuid : string) (data : list Byte.byte) (response : bool)
| WriteGattDescriptor (handle : Z) (data : list Byte.byte)
| StartNotify (_uuid : string) (callback : Native.callback)
| StopNotify (_uuid : string)
| GetAppropriateUuid (_uuid : string)
| IsUuid16bitCompatible (_uuid : string)
| ConvertUuidToInt (_uuid : string).

(** The client after one operation, whether it returned or raised. *)
Definition after (app : Native.Delegate) (o : operation) (c : Client.t) : Client.t :=
  match o with
  | Connect => snd (Client.connect app c)
  | Disconnect => snd (Client.disconnect app c)
  | IsConnected => snd (Client.is_connected c)
  | ScanForDevices timeout => snd (Client.scan_for_devices app timeout c)
  | GetServices => snd (Client.get_services app c)
  | ReadGattChar u use_cached => snd (Client.read_gatt_char app u use_cached c)
  | ReadGattDescriptor h use_cached => snd (Client.read_gatt_descriptor app h use_cached c)
  | WriteGattChar u data response => snd (Client.write_gatt_char app u data response c)
  | WriteGattDescriptor h data => snd (Client.write_gatt_descriptor app h data c)
  | StartNotify u callback => snd (Client.start_notify app u callback c)
  | StopNotify u => snd (Client.stop_notify app u c)
  | GetAppropriateUuid u => snd (Client.get_appropriate_uuid app u c)
  | IsUuid16bitCompatible u => snd (Client.is_uuid_16bit_compatible app u c)
  | ConvertUuidToInt u => snd (Client.convert_uuid_to_int app u c)
  end.

(** The client after a sequence of operations, one after the other. *)
Definition after_all (app : Native.Delegate) (ops : list operation) (c : Client.t)
  : Client.t :=
  fold_left (fun c o => after app o c) ops c.

(** ** Octets within a mask *)

(** Every bit set in octet [o] is set in octet [m]. *)
Definition octet_within (o m : Byte.byte) : bool :=
  (N.land (Byte.to_N o) (Byte.to_N m) =? Byte.to_N o)%N.

(** The same for two octet strings, octet by octet. *)
Definition within_mask (octets mask : list Byte.byte) : bool :=
  forallb (fun p => octet_within (fst p) (snd p)) (combine octets mask).

(** ** Advertisements *)

(** The advertisement has a manufacturer-data entry that is not empty. *)
Definition advertises (adv : Native.advertisement_data) : bool :=
  match adv !! "kCBAdvDataManufacturerData" with
  | Some (_ :: _) => true
  | _ => false
  end.

(** The company id at the head of manufacturer data: the first two octets
    read low octet first; data of one octet has that octet as id. *)
Definition company_id (data : list Byte.byte) : Z :=
  match data with
  | [] => 0
  | [b0] => Z.of_N (Byte.to_N b0)
  | b0 :: b1 :: _ => Z.of_N (Byte.to_N b0) + 256 * Z.of_N (Byte.to_N b1)
  end.

(** What [scan_for_devices] puts in the device of a peripheral whose
    advertisement has the manufacturer data [data]: the identifier as
    address, a name that is never empty, and one manufacturer entry, under
    the company id of [data], whose value is the hex dump of the octets
    after the first two. *)
Definition scanned_device (data : list Byte.byte) (d : BLEDevice) : Prop :=
  address d = Native.identifier_UUIDString (details d) /\
  name d = match Native.name (details d) with
           | Some n => if (String.length n =? 0)%nat then "Unknown" else n
           | None => "Unknown"
           end /\
  name d <> "" /\
  0 <= company_id data < 65536 /\
  exists value : string,
    manufacturer_data d = {[ company_id data := value ]} /\
    value = Client.manufacturer_value data /\
    String.length value = (2 * (length data - 2))%nat /\
    CBUUID.hex_pairs (list_ascii_of_string value) = Some (drop 2 data).

(** The device is the one of a peripheral of the scan, at index [i + j] for
    a [j] within [peripherals], whose advertisement at the same index has
    manufacturer data that is not empty. *)
Definition scanned_at (app : Native.Delegate) (i : nat)
    (peripherals : list Native.CBPeripheral) (d : BLEDevice) : Prop :=
  exists (j : nat) (adv : Native.advertisement_data) (data : list Byte.byte),
    peripherals !! j = Some (details d) /\
    Native.advertisement_data_list app !! (i + j)%nat = Some adv /\
    adv !! "kCBAdvDataManufacturerData" = Some data /\
    data <> [] /\
    scanned_device data d.

(** ** Discovery that fails *)

(** The delegate answers the discovery calls for service [s] and for each of
    its characteristics with the lists of the tree. *)
Definition discovers (app : Native.Delegate) (s : service_tree) : Prop :=
  Native.on_discoverCharacteristics_ app (fst s) = Ok (map fst (snd s)) /\
  Forall (fun ch : characteristic_tree =>
            Native.on_discoverDescriptors_ app (fst ch) = Ok (snd ch))
         (snd s).

(** The bodies of the loop over characteristics and of the loop over
    services in [get_services]. *)
Definition characteristic_body (app : Native.Delegate)
    (characteristic : Native.CBCharacteristic) : Client.M unit :=
  Client.bind
    (Client.await (Native.discoverDescriptors_ characteristic)
       (Native.on_discoverDescriptors_ app characteristic))
    (fun descriptors =>
       Client.bind
         (Client.services_add_characteristic
            (BleakGATTCharacteristicCoreBluetooth characteristic))
         (fun _ =>
            Client.for_each descriptors (fun descriptor =>
              Client.services_add_descriptor
                (BleakGATTDescriptorCoreBluetooth descriptor
                   (Native.characteristic_UUIDString characteristic))))).

Definition service_body (app : Native.Delegate) (service : Native.CBService)
  : Client.M unit :=
  Client.bind
    (Client.await (Native.discoverCharacteristics_ service)
       (Native.on_discoverCharacteristics_ app service))
    (fun characteristics =>
       Client.bind
         (Client.services_add_service (BleakGATTServiceCoreBluetooth service))
         (fun _ => Client.for_each characteristics (characteristic_body app))).

(** ** What a tree holds *)

(** The characteristics of all services, in discovery order, and the
    descriptors, each with its characteristic. *)
Definition tree_characteristics (services : list service_tree)
  : list Native.CBCharacteristic :=
  flat_map (fun s : service_tree => map fst (snd s)) services.

Definition tree_descriptors (services : list service_tree)
  : list (Native.CBCharacteristic * Native.CBDescriptor) :=
  flat_map (fun s : service_tree =>
              flat_map (fun ch : characteristic_tree => map (pair (fst ch)) (snd ch)) (snd s))
           services.

(** The characteristics and the descriptors that a list of steps adds. *)
Definition added_characteristics (steps : list Client.event)
  : list BleakGATTCharacteristic :=
  flat_map (fun e => match e with Client.AddCharacteristic w => [w] | _ => [] end) steps.

Definition added_descriptors (steps : list Client.event) : list BleakGATTDescriptor :=
  flat_map (fun e => match e with Client.AddDescriptor w => [w] | _ => [] end) steps.

(** ** Further delegates to run the code on *)

Module Cases.

(** A scan that returns two peripherals while the delegate holds one
    advertisement, which has manufacturer data. *)
Definition one_advertisement : Native.Delegate :=
  {| Native.CBUUID_data := CBUUID.data;
     Native.on_scanForPeripherals_ := fun _ => Ok [Demo.monitor; Demo.beacon];
     Native.advertisement_data_list :=
       [ {[ "kCBAdvDataManufacturerData" := [Byte.x4c; Byte.x00; Byte.x02] ]} ];
     Native.on_connect_ := fun _ => Ok true;
     Native.on_disconnect := Ok tt;
     Native.on_discoverServices := Ok [];
     Native.on_discoverCharacteristics_ := fun _ => Ok [];
     Native.on_discoverDescriptors_ := fun _ => Ok [];
     Native.on_readCharacteristic_ := fun _ _ => Ok [];
     Native.on_readDescriptor_ := fun _ _ => Ok [];
     Native.on_writeCharacteristic_value_ := fun _ _ => Ok true;
     Native.on_writeDescriptor_value_ := fun _ _ => Ok true;
     Native.on_startNotify_cb_ := fun _ _ => Ok true;
     Native.on_stopNotify_ := fun _ => Ok true |}.

(** The thermometer with a delegate that fails on the descriptors of the
    second characteristic of the first service. *)
Definition failing_thermometer : Native.Delegate :=
  {| Native.CBUUID_data := CBUUID.data;
     Native.on_scanForPeripherals_ := fun _ => Ok [];
     Native.advertisement_data_list := [];
     Native.on_connect_ := fun _ => Ok true;
     Native.on_disconnect := Ok tt;
     Native.on_discoverServices := Ok [Demo.health; Demo.battery];
     Native.on_discoverCharacteristics_ := fun s =>
       if (Native.service_ref s =? 10)%N then Ok [Demo.temperature; Demo.interval]
       else Ok [Demo.level];
     Native.on_discoverDescriptors_ := fun ch =>
       if (Native.characteristic_ref ch =? 12)%N then Ok [Demo.indication; Demo.description]
       else Raise (AdapterFailure "descriptors");
     Native.on_readCharacteristic_ := fun _ _ => Ok [];
     Native.on_readDescriptor_ := fun _ _ => Ok [];
     Native.on_writeCharacteristic_value_ := fun _ _ => Ok true;
     Native.on_writeDescriptor_value_ := fun _ _ => Ok true;
     Native.on_startNotify_cb_ := fun _ _ => Ok true;
     Native.on_stopNotify_ := fun _ => Ok true |}.

(** The monitor behind a delegate that cannot connect. *)
Definition unreachable_monitor : Native.Delegate :=
  {| Native.CBUUID_data := CBUUID.data;
     Native.on_scanForPeripherals_ := fun _ => Ok [Demo.beacon; Demo.monitor];
     Native.advertisement_data_list :=
       [ ∅ ; {[ "kCBAdvDataManufacturerData" := [Byte.x4c; Byte.x00; Byte.x02; Byte.xa5] ]} ];
     Native.on_connect_ := fun _ => Raise (AdapterFailure "connect");
     Native.on_disconnect := Ok tt;
     Native.on_discoverServices := Ok [Demo.heart_rate];
     Native.on_discoverCharacteristics_ := fun _ => Ok [Demo.measurement];
     Native.on_discoverDescriptors_ := fun _ => Ok [Demo.config];
     Native.on_readCharacteristic_ := fun _ _ => Ok [];
     Native.on_readDescriptor_ := fun _ _ => Ok [];
     Native.on_writeCharacteristic_value_ := fun _ _ => Ok true;
     Native.on_writeDescriptor_value_ := fun _ _ => Ok true;
     Native.on_startNotify_cb_ := fun _ _ => Ok true;
     Native.on_stopNotify_ := fun _ => Ok true |}.

End Cases.

(** * Properties *)

(** ** Running coroutines *)

Section Running.

Context {A B : Type}.

Lemma bind_ok (m : Client.M A) (k : A -> Client.M B) c a c' :
  m c = (Ok a, c') -> Client.bind m k c = k a c'.
Proof. intros E. unfold Client.bind. now rewrite E. Qed.

End Running.

(** ** The UUID normaliser *)

(** The normaliser and its helpers read no field and place no call: the
    client is left as it was, whatever the outcome. *)
Lemma convert_uuid_to_int_state app u c :
  snd (Client.convert_uuid_to_int app u c) = c.
Proof.
  unfold Client.convert_uuid_to_int, Client.bind, Client.lift, Client.ret.
  now destruct (Native.CBUUID_data app u).
Qed.

Lemma convert_uuid_to_int_ok app u c bs :
  Native.CBUUID_data app u = Ok bs ->
  Client.convert_uuid_to_int app u c = (Ok (from_bytes_big bs), c).
Proof.
  intros E. unfold Client.convert_uuid_to_int, Client.bind, Client.lift, Client.ret.
  now rewrite E.
Qed.

Lemma is_uuid_16bit_compatible_state app u c :
  snd (Client.is_uuid_16bit_compatible app u c) = c.
Proof.
  unfold Client.is_uuid_16bit_compatible, Client.bind.
  pose proof (convert_uuid_to_int_state app Client.test_uuid c) as H1.
  destruct (Client.convert_uuid_to_int app Client.test_uuid c) as [[t|e] c1];
    simpl in H1; subst c1; [|reflexivity].
  pose proof (convert_uuid_to_int_state app u c) as H2.
  destruct (Client.convert_uuid_to_int app u c) as [[v|e] c2];
    simpl in H2; subst c2; reflexivity.
Qed.

Lemma get_appropriate_uuid_state app u c :
  snd (Client.get_appropriate_uuid app u c) = c.
Proof.
  unfold Client.get_appropriate_uuid.
  destruct (String.length u =? 4)%nat; [reflexivity|].
  unfold Client.bind.
  pose proof (is_uuid_16bit_compatible_state app u c) as H.
  destruct (Client.is_uuid_16bit_compatible app u c) as [[[|]|e] c1];
    simpl in H; subst c1; reflexivity.
Qed.

Lemma get_appropriate_uuid_short app u c :
  String.length u = 4%nat ->
  Client.get_appropriate_uuid app u c = (Ok (upper u), c).
Proof. intros L. unfold Client.get_appropriate_uuid. now rewrite L. Qed.

Lemma get_appropriate_uuid_masked app u c octets base :
  String.length u <> 4%nat ->
  Native.CBUUID_data app Client.test_uuid = Ok base ->
  Native.CBUUID_data app u = Ok octets ->
  Client.get_appropriate_uuid app u c =
  (Ok (if Z.land (from_bytes_big octets) (from_bytes_big base) =? from_bytes_big octets
       then upper (slice 4 8 u)
       else upper u), c).
Proof.
  intros L Hbase Hoct. unfold Client.get_appropriate_uuid.
  apply Nat.eqb_neq in L. rewrite L.
  unfold Client.is_uuid_16bit_compatible.
  rewrite (bind_ok _ _ c
             (Z.land (from_bytes_big octets) (from_bytes_big base) =? from_bytes_big octets) c).
  - now destruct (Z.land (from_bytes_big octets) (from_bytes_big base) =? from_bytes_big octets).
  - rewrite (bind_ok _ _ c (from_bytes_big base) c)
      by (apply convert_uuid_to_int_ok; exact Hbase).
    rewrite (bind_ok _ _ c (from_bytes_big octets) c)
      by (apply convert_uuid_to_int_ok; exact Hoct).
    unfold Client.ret. now rewrite Z.eqb_sym.
Qed.

(** C1. [get_appropriate_uuid] is the three-branch normaliser: an input of
    length 4 comes back upper-cased; otherwise, with [uuid_int] the
    big-endian integer of the input's octets and [base_int] that of
    [0000FFFF-0000-1000-8000-00805F9B34FB], the result is characters 4..7
    upper-cased when [uuid_int & base_int == uuid_int], and the whole input
    upper-cased when not.  The client is left unchanged. *)
Theorem get_appropriate_uuid_three_branches
    (app : Native.Delegate) (_uuid : string) (c : Client.t) :
  (String.length _uuid = 4%nat ->
   Client.get_appropriate_uuid app _uuid c = (Ok (upper _uuid), c)) /\
  (forall octets base : list Byte.byte,
     String.length _uuid <> 4%nat ->
     Native.CBUUID_data app "0000FFFF-0000-1000-8000-00805F9B34FB" = Ok base ->
     Native.CBUUID_data app _uuid = Ok octets ->
     let uuid_int := from_bytes_big octets in
     let base_int := from_bytes_big base in
     Client.get_appropriate_uuid app _uuid c =
       (Ok (if Z.land uuid_int base_int =? uuid_int
            then upper (slice 4 8 _uuid)
            else upper _uuid), c)).
Proof.
  split.
  - apply get_appropriate_uuid_short.
  - intros octets base L Hbase Hoct uuid_int base_int.
    now apply get_appropriate_uuid_masked.
Qed.

Lemma get_appropriate_uuid_three_branches_witness :
  Client.get_appropriate_uuid Demo.delegate "2a37" Demo.client
    = (Ok "2A37", Demo.client) /\
  Client.get_appropriate_uuid Demo.delegate
      "00002a37-0000-1000-8000-00805f9b34fb" Demo.client
    = (Ok "2A37", Demo.client) /\
  Client.get_appropriate_uuid Demo.delegate
      "a1b2c3d4-1234-5678-9abc-def012345678" Demo.client
    = (Ok "A1B2C3D4-1234-5678-9ABC-DEF012345678", Demo.client).
Proof.
  split; [|split].
  - apply (proj1 (get_appropriate_uuid_three_branches Demo.delegate "2a37" Demo.client)).
    reflexivity.
  - apply (proj2 (get_appropriate_uuid_three_branches Demo.delegate
                    "00002a37-0000-1000-8000-00805f9b34fb" Demo.client)
             [Byte.x00; Byte.x00; Byte.x2a; Byte.x37; Byte.x00; Byte.x00;
              Byte.x10; Byte.x00; Byte.x80; Byte.x00; Byte.x00; Byte.x80;
              Byte.x5f; Byte.x9b; Byte.x34; Byte.xfb]
             [Byte.x00; Byte.x00; Byte.xff; Byte.xff; Byte.x00; Byte.x00;
              Byte.x10; Byte.x00; Byte.x80; Byte.x00; Byte.x00; Byte.x80;
              Byte.x5f; Byte.x9b; Byte.x34; Byte.xfb]).
    + simpl. lia.
    + reflexivity.
    + reflexivity.
  - apply (proj2 (get_appropriate_uuid_three_branches Demo.delegate
                    "a1b2c3d4-1234-5678-9abc-def012345678" Demo.client)
             [Byte.xa1; Byte.xb2; Byte.xc3; Byte.xd4; Byte.x12; Byte.x34;
              Byte.x56; Byte.x78; Byte.x9a; Byte.xbc; Byte.xde; Byte.xf0;
              Byte.x12; Byte.x34; Byte.x56; Byte.x78]
             [Byte.x00; Byte.x00; Byte.xff; Byte.xff; Byte.x00; Byte.x00;
              Byte.x10; Byte.x00; Byte.x80; Byte.x00; Byte.x00; Byte.x80;
              Byte.x5f; Byte.x9b; Byte.x34; Byte.xfb]).
    + simpl. lia.
    + reflexivity.
    + reflexivity.
Defined.

(** ** Framing *)

Create HintDb frames.

Lemma later_refl c : later c c.
Proof. split; try reflexivity. exists []. now rewrite app_nil_r. Qed.

Lemma later_trans c1 c2 c3 : later c1 c2 -> later c2 c3 -> later c1 c3.
Proof.
  intros [a1 s1 [e1 t1]] [a2 s2 [e2 t2]]. split; try congruence.
  exists (e1 ++ e2)%list. rewrite t2, t1. now rewrite app_assoc.
Qed.

Lemma later_quiet c c' :
  Client.self_address c' = Client.self_address c ->
  Client._services c' = Client._services c ->
  Client.trace c' = Client.trace c ->
  later c c'.
Proof. intros Ha Hs Ht. split; auto. exists []. now rewrite app_nil_r. Qed.

Lemma later_emit e c : later c (Client.emit e c).
Proof. split; try reflexivity. now exists [e]. Qed.

Lemma frames_ret {A} (a : A) : frames (Client.ret a).
Proof. intros c. apply later_refl. Qed.

Lemma frames_raise {A} e : frames (@Client.raise A e).
Proof. intros c. apply later_refl. Qed.

Lemma frames_gets {A} (f : Client.t -> A) : frames (Client.gets f).
Proof. intros c. apply later_refl. Qed.

Lemma frames_lift {A} (r : Result A) : frames (Client.lift r).
Proof. intros c. apply later_refl. Qed.

Lemma frames_await {A} call (answer : Result A) : frames (Client.await call answer).
Proof. intros c. apply later_emit. Qed.

Lemma frames_modify f : (forall c, later c (f c)) -> frames (Client.modify f).
Proof. intros H c. apply H. Qed.

Lemma frames_bind {A B} (m : Client.M A) (k : A -> Client.M B) :
  frames m -> (forall a, frames (k a)) -> frames (Client.bind m k).
Proof.
  intros Hm Hk c. unfold Client.bind. specialize (Hm c).
  destruct (m c) as [[a|e] c1]; simpl in Hm; [|exact Hm].
  eapply later_trans; [exact Hm | apply Hk].
Qed.

Lemma frames_for_each {A} (xs : list A) (body : A -> Client.M unit) :
  (forall x, frames (body x)) -> frames (Client.for_each xs body).
Proof.
  intros Hb. induction xs as [|x xs IH]; simpl.
  - apply frames_ret.
  - apply frames_bind; [apply Hb | intros _; exact IH].
Qed.

#[local] Hint Resolve frames_ret frames_raise frames_gets frames_lift frames_await
  frames_bind frames_for_each : frames.

Lemma frames_add_service s : frames (Client.services_add_service s).
Proof. apply frames_modify. intros []. split; try reflexivity. now eexists [_]. Qed.

Lemma frames_add_characteristic ch : frames (Client.services_add_characteristic ch).
Proof. apply frames_modify. intros []. split; try reflexivity. now eexists [_]. Qed.

Lemma frames_add_descriptor d : frames (Client.services_add_descriptor d).
Proof. apply frames_modify. intros []. split; try reflexivity. now eexists [_]. Qed.

Lemma frames_set__services_resolved b : frames (Client.modify (Client.set__services_resolved b)).
Proof. apply frames_modify. intros c. now apply later_quiet. Qed.

Lemma frames_set_isConnected b : frames (Client.modify (Client.set_isConnected b)).
Proof. apply frames_modify. intros c. now apply later_quiet. Qed.

Lemma frames_set__device_info v : frames (Client.modify (Client.set__device_info v)).
Proof. apply frames_modify. intros c. now apply later_quiet. Qed.

#[local] Hint Resolve frames_add_service frames_add_characteristic frames_add_descriptor
  frames_set__services_resolved frames_set_isConnected frames_set__device_info : frames.

Lemma frames_get_services app : frames (Client.get_services app).
Proof.
  unfold Client.get_services.
  apply frames_bind; [auto with frames|]. intros [coll|]; [auto with frames|].
  apply frames_bind; [auto with frames|]. intros services.
  apply frames_bind; [|auto 6 with frames].
  apply frames_for_each. intros service.
  apply frames_bind; [auto with frames|]. intros characteristics.
  apply frames_bind; [auto with frames|]. intros _.
  apply frames_for_each. intros characteristic.
  auto 8 with frames.
Qed.

Lemma frames_scan_for_devices app timeout : frames (Client.scan_for_devices app timeout).
Proof. unfold Client.scan_for_devices. auto with frames. Qed.

Lemma frames_connect app : frames (Client.connect app).
Proof.
  unfold Client.connect.
  apply frames_bind; [apply frames_scan_for_devices|]. intros devices.
  apply frames_bind; [auto with frames|]. intros addr.
  destruct (List.filter _ devices); [auto with frames|].
  pose proof (frames_get_services app).
  unfold Client.delegate_connect_. auto 10 with frames.
Qed.

Lemma frames_get_appropriate_uuid app u : frames (Client.get_appropriate_uuid app u).
Proof. intros c. rewrite get_appropriate_uuid_state. apply later_refl. Qed.

Lemma frames_disconnect app : frames (Client.disconnect app).
Proof. unfold Client.disconnect, Client.delegate_disconnect. auto 6 with frames. Qed.

Lemma frames_read_gatt_char app u use_cached : frames (Client.read_gatt_char app u use_cached).
Proof.
  unfold Client.read_gatt_char.
  apply frames_bind; [apply frames_get_appropriate_uuid|]. intros k.
  apply frames_bind; [auto with frames|]. intros [ch|]; auto with frames.
Qed.

Lemma frames_write_gatt_char app u data response :
  frames (Client.write_gatt_char app u data response).
Proof.
  unfold Client.write_gatt_char.
  apply frames_bind; [apply frames_get_appropriate_uuid|]. intros k.
  apply frames_bind; [auto with frames|]. intros [ch|]; auto with frames.
Qed.

Lemma frames_start_notify app u callback : frames (Client.start_notify app u callback).
Proof.
  unfold Client.start_notify.
  apply frames_bind; [apply frames_get_appropriate_uuid|]. intros k.
  apply frames_bind; [auto with frames|]. intros [ch|]; auto with frames.
Qed.

Lemma frames_stop_notify app u : frames (Client.stop_notify app u).
Proof.
  unfold Client.stop_notify.
  apply frames_bind; [auto with frames|]. intros [ch|]; auto with frames.
Qed.

Lemma frames_read_gatt_descriptor app handle use_cached :
  frames (Client.read_gatt_descriptor app handle use_cached).
Proof.
  unfold Client.read_gatt_descriptor.
  apply frames_bind; [auto with frames|]. intros [d|]; auto with frames.
Qed.

Lemma frames_write_gatt_descriptor app handle data :
  frames (Client.write_gatt_descriptor app handle data).
Proof.
  unfold Client.write_gatt_descriptor.
  apply frames_bind; [auto with frames|]. intros [d|]; auto with frames.
Qed.

(** No coroutine of the client assigns [_services]: it is [None] from
    [__init__] on. *)
Lemma get_services_keeps_cache_unset app c :
  Client._services c = None -> Client._services (snd (Client.get_services app c)) = None.
Proof. intros H. rewrite (later_cache _ _ (frames_get_services app c)). exact H. Qed.

(** With [_services] unset, [get_services] goes to the delegate first thing. *)
Lemma get_services_discovers app c :
  Client._services c = None ->
  exists rest,
    Client.trace (snd (Client.get_services app c))
    = (Client.trace c ++ Client.Call Native.discoverServices :: rest)%list.
Proof.
  intros H. unfold Client.get_services.
  unfold Client.bind at 1. unfold Client.gets at 1. rewrite H.
  match goal with |- context [Client.bind ?m ?k c] =>
    assert (Hk : forall a, frames (k a)); [|unfold Client.bind at 1] end.
  { intros services. apply frames_bind; [|auto 6 with frames].
    apply frames_for_each. intros service.
    apply frames_bind; [auto with frames|]. intros characteristics.
    apply frames_bind; [auto with frames|]. intros _.
    apply frames_for_each. intros characteristic. auto 8 with frames. }
  unfold Client.await at 1.
  destruct (Native.on_discoverServices app) as [services|e].
  - destruct (later_trace _ _ (Hk services (Client.emit (Client.Call Native.discoverServices) c)))
      as [evs Hevs].
    exists evs. rewrite Hevs. simpl. now rewrite <- app_assoc.
  - now exists [].
Qed.

(** ** Lookups that find nothing *)

(** Case analysis on the outcome of [get_appropriate_uuid app u c], knowing
    that it hands the client back unchanged; the raising case is closed. *)
Ltac run_normaliser app u c k :=
  let H := fresh "H" in
  let c1 := fresh "c" in
  pose proof (get_appropriate_uuid_state app u c) as H;
  destruct (Client.get_appropriate_uuid app u c) as [[k|?] c1];
  cbn [fst snd] in H |- *; subst c1; [|reflexivity].

Lemma read_gatt_char_run app u use_cached c :
  Client.read_gatt_char app u use_cached c =
  match fst (Client.get_appropriate_uuid app u c) with
  | Ok k =>
      match get_characteristic (Client.self_services c) (Str k) with
      | None => (Raise (BleakError ("Characteristic " ++ k ++ " was not found!")), c)
      | Some ch =>
          (Native.on_readCharacteristic_ app (characteristic_obj ch) use_cached,
           Client.emit (Client.Call
             (Native.readCharacteristic_ (characteristic_obj ch) use_cached)) c)
      end
  | Raise e => (Raise e, c)
  end.
Proof.
  unfold Client.read_gatt_char, Client.bind at 1.
  run_normaliser app u c k.
  unfold Client.bind, Client.gets.
  now destruct (get_characteristic (Client.self_services c) (Str k)).
Qed.

Lemma write_gatt_char_run app u data response c :
  Client.write_gatt_char app u data response c =
  match fst (Client.get_appropriate_uuid app u c) with
  | Ok k =>
      match get_characteristic (Client.self_services c) (Str k) with
      | None => (Raise (BleakError ("Characteristic " ++ k ++ " was not found!")), c)
      | Some ch =>
          (match Native.on_writeCharacteristic_value_ app (characteristic_obj ch) data with
           | Ok _ => Ok tt
           | Raise e => Raise e
           end,
           Client.emit (Client.Call
             (Native.writeCharacteristic_value_ (characteristic_obj ch) data)) c)
      end
  | Raise e => (Raise e, c)
  end.
Proof.
  unfold Client.write_gatt_char, Client.bind at 1.
  run_normaliser app u c k.
  unfold Client.bind, Client.gets, Client.await, Client.ret.
  destruct (get_characteristic (Client.self_services c) (Str k)) as [ch|]; [|reflexivity].
  now destruct (Native.on_writeCharacteristic_value_ app (characteristic_obj ch) data).
Qed.

Lemma start_notify_run app u callback c :
  Client.start_notify app u callback c =
  match fst (Client.get_appropriate_uuid app u c) with
  | Ok k =>
      match get_characteristic (Client.self_services c) (Str k) with
      | None => (Raise (BleakError ("Characteristic " ++ k ++ " not found!")), c)
      | Some ch =>
          (match Native.on_startNotify_cb_ app (characteristic_obj ch) callback with
           | Ok _ => Ok tt
           | Raise e => Raise e
           end,
           Client.emit (Client.Call
             (Native.startNotify_cb_ (characteristic_obj ch) callback)) c)
      end
  | Raise e => (Raise e, c)
  end.
Proof.
  unfold Client.start_notify, Client.bind at 1.
  run_normaliser app u c k.
  unfold Client.bind, Client.gets, Client.await, Client.ret.
  destruct (get_characteristic (Client.self_services c) (Str k)) as [ch|]; [|reflexivity].
  now destruct (Native.on_startNotify_cb_ app (characteristic_obj ch) callback).
Qed.

(** [stop_notify] looks the coroutine object up, which is no key of the
    collection, whatever the argument and whatever the collection holds. *)
Lemma stop_notify_run app u c :
  Client.stop_notify app u c =
  (Raise (BleakError
     "Characteristic <coroutine object BleakClientCoreBluetooth.get_appropriate_uuid> not found!"),
   c).
Proof. reflexivity. Qed.

Lemma read_gatt_descriptor_absent app handle use_cached c :
  get_descriptor (Client.self_services c) handle = None ->
  Client.read_gatt_descriptor app handle use_cached c =
  (Raise (BleakError ("Descriptor " ++ format_int handle ++ " was not found!")), c).
Proof.
  intros H. unfold Client.read_gatt_descriptor, Client.bind, Client.gets. now rewrite H.
Qed.

Lemma write_gatt_descriptor_absent app handle data c :
  get_descriptor (Client.self_services c) handle = None ->
  Client.write_gatt_descriptor app handle data c =
  (Raise (BleakError ("Descriptor " ++ format_int handle ++ " was not found!")), c).
Proof.
  intros H. unfold Client.write_gatt_descriptor, Client.bind, Client.gets. now rewrite H.
Qed.

(** Against C6 as stated.  The collection of the connected monitor holds
    one characteristic, under the key [2A37], whose 128-bit UUID is the
    Base UUID form of [2A37].  The UUID [00002A37-0000-0000-0000-000000000000]
    is another UUID and no key of the collection, yet its bits lie within
    the mask of [is_uuid_16bit_compatible], so it is normalised to [2A37]:
    [read_gatt_char] does not raise, it places the delegate's read call for
    the characteristic of the monitor and returns its value. *)
Lemma absent_uuid_is_read_under_its_short_form :
  map fst (map_to_list (characteristics (Client.self_services Demo.connected))) = ["2A37"] /\
  get_characteristic (Client.self_services Demo.connected)
    (Str "00002A37-0000-0000-0000-000000000000") = None /\
  CBUUID.data "00002A37-0000-0000-0000-000000000000" <> CBUUID.data (full_form "2A37") /\
  fst (Client.get_appropriate_uuid Demo.delegate "00002A37-0000-0000-0000-000000000000"
         Demo.connected) = Ok "2A37" /\
  Client.read_gatt_char Demo.delegate "00002A37-0000-0000-0000-000000000000" false
    Demo.connected
  = (Ok [Byte.x00; Byte.x48],
     Client.emit (Client.Call (Native.readCharacteristic_ Demo.measurement false))
       Demo.connected).
Proof.
  split; [vm_compute; reflexivity|].
  split; [vm_compute; reflexivity|].
  split; [vm_compute; discriminate|].
  split; vm_compute; reflexivity.
Qed.

(** C6, as the code has it.  The lookup is by the normalised UUID, not by
    the UUID given: when the key [get_appropriate_uuid] returns is absent
    from the collection, [read_gatt_char] raises a [BleakError] whose
    message carries that key and leaves the client, hence the trace of
    delegate calls, as it was; [read_gatt_descriptor] and
    [write_gatt_descriptor] do the same for an absent handle, with the
    handle in the message. *)
Theorem absent_identifier_raises_without_call
    (app : Native.Delegate) (c : Client.t) :
  (forall (_uuid : string) (use_cached : bool) (k : string),
     fst (Client.get_appropriate_uuid app _uuid c) = Ok k ->
     get_characteristic (Client.self_services c) (Str k) = None ->
     Client.read_gatt_char app _uuid use_cached c =
     (Raise (BleakError ("Characteristic " ++ k ++ " was not found!")), c)) /\
  (forall (handle : Z) (use_cached : bool),
     get_descriptor (Client.self_services c) handle = None ->
     Client.read_gatt_descriptor app handle use_cached c =
     (Raise (BleakError ("Descriptor " ++ format_int handle ++ " was not found!")), c)) /\
  (forall (handle : Z) (data : list Byte.byte),
     get_descriptor (Client.self_services c) handle = None ->
     Client.write_gatt_descriptor app handle data c =
     (Raise (BleakError ("Descriptor " ++ format_int handle ++ " was not found!")), c)).
Proof.
  repeat split.
  - intros u uc k Hk Habs. rewrite read_gatt_char_run, Hk. now rewrite Habs.
  - intros. now apply read_gatt_descriptor_absent.
  - intros. now apply write_gatt_descriptor_absent.
Qed.

Lemma absent_identifier_raises_without_call_witness :
  Client.read_gatt_char Demo.delegate "00002a38-0000-1000-8000-00805f9b34fb" false
    Demo.connected
  = (Raise (BleakError "Characteristic 2A38 was not found!"), Demo.connected) /\
  Client.read_gatt_descriptor Demo.delegate 43 false Demo.connected
  = (Raise (BleakError "Descriptor 43 was not found!"), Demo.connected) /\
  Client.write_gatt_descriptor Demo.delegate 43 [Byte.x01] Demo.connected
  = (Raise (BleakError "Descriptor 43 was not found!"), Demo.connected).
Proof.
  destruct (absent_identifier_raises_without_call Demo.delegate Demo.connected)
    as (Hchar & Hread & Hwrite).
  split; [|split].
  - apply (Hchar "00002a38-0000-1000-8000-00805f9b34fb" false "2A38");
      vm_compute; reflexivity.
  - apply (Hread 43 false). vm_compute. reflexivity.
  - apply (Hwrite 43 [Byte.x01]). vm_compute. reflexivity.
Defined.

(** ** The write mode *)

(** C8. The [response] argument of [write_gatt_char] does not reach the
    delegate: with [True] and with [False] the coroutine is the same, and
    the call placed for characteristic [2A37] of the monitor carries the
    characteristic and the data only. *)
Theorem write_gatt_char_response_not_dispatched :
  (forall (app : Native.Delegate) (_uuid : string) (data : list Byte.byte) (c : Client.t),
     Client.write_gatt_char app _uuid data true c
     = Client.write_gatt_char app _uuid data false c) /\
  Client.write_gatt_char Demo.delegate "2A37" [Byte.x01] true Demo.connected
  = (Ok tt,
     Client.emit (Client.Call
       (Native.writeCharacteristic_value_ Demo.measurement [Byte.x01])) Demo.connected).
Proof.
  split.
  - reflexivity.
  - vm_compute. reflexivity.
Qed.

(** ** Short and full form in the four UUID operations *)

Lemma hex_val_lt ch n : CBUUID.hex_val ch = Some n -> (n < 16)%N.
Proof.
  unfold CBUUID.hex_val.
  repeat match goal with |- context [if ?b then _ else _] => destruct b eqn:? end;
    intros [= <-];
    repeat match goal with
           | H : (_ && _)%bool = true |- _ => apply andb_true_iff in H; destruct H
           | H : (_ <=? _)%N = true |- _ => apply N.leb_le in H
           end; lia.
Qed.

Lemma byte_of_hex_pair hi lo :
  (hi < 16)%N -> (lo < 16)%N ->
  exists b, Byte.of_N (16 * hi + lo) = Some b /\ Byte.to_N b = (16 * hi + lo)%N.
Proof.
  intros Hhi Hlo. destruct (Byte.of_N (16 * hi + lo)) as [b|] eqn:E.
  - exists b. split; [reflexivity|]. now apply Byte.to_of_N.
  - apply Byte.of_N_None_iff in E. lia.
Qed.

Lemma hex_pairs_cons h l rest hi lo b bs :
  CBUUID.hex_val h = Some hi -> CBUUID.hex_val l = Some lo ->
  Byte.of_N (16 * hi + lo) = Some b -> CBUUID.hex_pairs rest = Some bs ->
  CBUUID.hex_pairs (h :: l :: rest) = Some (b :: bs).
Proof.
  intros Hh Hl Hb Hrest. cbn [CBUUID.hex_pairs].
  rewrite Hh. cbn [mbind option_bind]. rewrite Hl. cbn [mbind option_bind].
  rewrite Hb. cbn [mbind option_bind]. now rewrite Hrest.
Qed.

Lemma full_form_octets x :
  String.length x = 4%nat -> hex_string x ->
  exists b2 b3,
    CBUUID.octets (full_form x)
    = Some [Byte.x00; Byte.x00; b2; b3; Byte.x00; Byte.x00; Byte.x10; Byte.x00;
            Byte.x80; Byte.x00; Byte.x00; Byte.x80; Byte.x5f; Byte.x9b; Byte.x34; Byte.xfb].
Proof.
  destruct x as [|a [|b [|c [|d [|? ?]]]]]; try discriminate. intros _ Hhex.
  unfold hex_string in Hhex. cbn [list_ascii_of_string] in Hhex.
  apply Forall_cons in Hhex as [[h1 H1] Hhex]. apply Forall_cons in Hhex as [[h2 H2] Hhex].
  apply Forall_cons in Hhex as [[h3 H3] Hhex]. apply Forall_cons in Hhex as [[h4 H4] _].
  destruct (byte_of_hex_pair h1 h2) as (b2 & Hb2 & _); eauto using hex_val_lt.
  destruct (byte_of_hex_pair h3 h4) as (b3 & Hb3 & _); eauto using hex_val_lt.
  exists b2, b3. unfold CBUUID.octets, full_form.
  change (list_ascii_of_string
            ("0000" ++ String a (String b (String c (String d ""))) ++
             "-0000-1000-8000-00805F9B34FB"))
    with (list_ascii_of_string "0000" ++ [a; b; c; d]
          ++ list_ascii_of_string "-0000-1000-8000-00805F9B34FB")%list.
  cbn [list_ascii_of_string app length].
  rewrite bool_decide_eq_true_2 by (repeat split; reflexivity).
  cbn [take drop app].
  eapply hex_pairs_cons; [reflexivity..|].
  eapply hex_pairs_cons; [reflexivity..|].
  eapply hex_pairs_cons; [eassumption..|].
  eapply hex_pairs_cons; [eassumption..|].
  reflexivity.
Qed.

Lemma land_within_base (v K : Z) :
  0 <= K < 2 ^ 96 -> 0 <= v < 2 ^ 16 ->
  Z.land (v * 2 ^ 96 + K) (65535 * 2 ^ 96 + K) = v * 2 ^ 96 + K.
Proof.
  intros HK Hv. apply Z.bits_inj'. intros n Hn. rewrite Z.land_spec.
  assert (low : forall w, n < 96 -> Z.testbit (w * 2 ^ 96 + K) n = Z.testbit K n).
  { intros w Hlt. rewrite <- (Z.mod_pow2_bits_low (w * 2 ^ 96 + K) 96 n) by lia.
    f_equal. rewrite Z.add_comm, Z.mod_add by lia. apply Z.mod_small; lia. }
  assert (high : forall w, 96 <= n -> Z.testbit (w * 2 ^ 96 + K) n = Z.testbit w (n - 96)).
  { intros w Hge. replace n with ((n - 96) + 96) at 1 by lia.
    rewrite <- Z.div_pow2_bits by lia. f_equal.
    rewrite Z.add_comm, Z.div_add by lia. rewrite Z.div_small by lia. lia. }
  destruct (Z.lt_ge_cases n 96) as [Hlt|Hge].
  - rewrite !low by lia. apply andb_diag.
  - rewrite !high by lia. destruct (Z.lt_ge_cases (n - 96) 16) as [Hin|Hout].
    + change 65535 with (Z.ones 16). rewrite Z.ones_spec_low by lia. apply andb_true_r.
    + replace (Z.testbit v (n - 96)) with false; [reflexivity|].
      symmetry. replace (n - 96) with ((n - 112) + 16) by lia.
      rewrite <- Z.div_pow2_bits by lia. rewrite Z.div_small by lia. apply Z.bits_0.
Qed.

Lemma base_octets_within_mask b2 b3 :
  let uuid_int :=
    from_bytes_big [Byte.x00; Byte.x00; b2; b3; Byte.x00; Byte.x00; Byte.x10; Byte.x00;
                    Byte.x80; Byte.x00; Byte.x00; Byte.x80; Byte.x5f; Byte.x9b; Byte.x34;
                    Byte.xfb] in
  let test_int :=
    from_bytes_big [Byte.x00; Byte.x00; Byte.xff; Byte.xff; Byte.x00; Byte.x00; Byte.x10;
                    Byte.x00; Byte.x80; Byte.x00; Byte.x00; Byte.x80; Byte.x5f; Byte.x9b;
                    Byte.x34; Byte.xfb] in
  Z.land uuid_int test_int = uuid_int.
Proof.
  intros uuid_int test_int.
  pose proof (Byte.to_N_bounded b2) as B2. pose proof (Byte.to_N_bounded b3) as B3.
  set (K := 0x0000_1000_8000_0080_5F9B_34FB).
  assert (Hu : uuid_int = (Z.of_N (Byte.to_N b2) * 256 + Z.of_N (Byte.to_N b3)) * 2 ^ 96 + K).
  { subst uuid_int K. unfold from_bytes_big. cbn [fold_left].
    change (Z.of_N (Byte.to_N Byte.x00)) with 0. change (Z.of_N (Byte.to_N Byte.x10)) with 16.
    change (Z.of_N (Byte.to_N Byte.x80)) with 128. change (Z.of_N (Byte.to_N Byte.x5f)) with 95.
    change (Z.of_N (Byte.to_N Byte.x9b)) with 155. change (Z.of_N (Byte.to_N Byte.x34)) with 52.
    change (Z.of_N (Byte.to_N Byte.xfb)) with 251. lia. }
  assert (Ht : test_int = 65535 * 2 ^ 96 + K) by (vm_compute; reflexivity).
  rewrite Hu, Ht. apply land_within_base; subst K; lia.
Qed.

(** A UUID of the Base-UUID range normalises to its short form, upper-cased,
    as the short form itself does. *)
Lemma full_form_normalises app x c :
  (forall s, Native.CBUUID_data app s = CBUUID.data s) ->
  String.length x = 4%nat -> hex_string x ->
  Client.get_appropriate_uuid app (full_form x) c = (Ok (upper x), c).
Proof.
  intros Happ Hlen Hhex.
  destruct (full_form_octets x Hlen Hhex) as (b2 & b3 & Hoct).
  assert (Hslice : slice 4 8 (full_form x) = x /\ String.length (full_form x) <> 4%nat).
  { destruct x as [|x0 [|x1 [|x2 [|x3 [|? ?]]]]]; try discriminate. split; [reflexivity|].
    intros H. vm_compute in H. discriminate H. }
  destruct Hslice as [Hslice Hlong].
  erewrite (get_appropriate_uuid_masked app (full_form x) c _ _ Hlong).
  - rewrite base_octets_within_mask, Z.eqb_refl. now rewrite Hslice.
  - rewrite Happ. reflexivity.
  - rewrite Happ. unfold CBUUID.data. now rewrite Hoct.
Qed.

(** The three operations that await the normaliser treat the short and the
    full form of a 16-bit UUID alike, on every client. *)
Lemma short_and_full_form_resolve_alike app x c :
  (forall s, Native.CBUUID_data app s = CBUUID.data s) ->
  String.length x = 4%nat -> hex_string x ->
  (forall use_cached,
     Client.read_gatt_char app (full_form x) use_cached c
     = Client.read_gatt_char app x use_cached c) /\
  (forall data response,
     Client.write_gatt_char app (full_form x) data response c
     = Client.write_gatt_char app x data response c) /\
  (forall callback,
     Client.start_notify app (full_form x) callback c
     = Client.start_notify app x callback c).
Proof.
  intros Happ Hlen Hhex.
  pose proof (full_form_normalises app x c Happ Hlen Hhex) as Hfull.
  pose proof (get_appropriate_uuid_short app x c Hlen) as Hshort.
  repeat split; intros.
  - now rewrite !read_gatt_char_run, Hfull, Hshort.
  - now rewrite !write_gatt_char_run, Hfull, Hshort.
  - now rewrite !start_notify_run, Hfull, Hshort.
Qed.

(** C4. On the connected monitor, whose collection holds characteristic
    [2A37], [start_notify], [read_gatt_char] and [write_gatt_char] reach
    that characteristic by the short and by the full form alike, while
    [stop_notify] finds it by neither: it never normalises its argument and
    raises for every argument and every client. *)
Theorem stop_notify_does_not_normalise :
  get_characteristic (Client.self_services Demo.connected) (Str "2A37")
  = Some (BleakGATTCharacteristicCoreBluetooth Demo.measurement) /\
  Forall (fun u =>
     Client.start_notify Demo.delegate u 7%N Demo.connected
     = (Ok tt, Client.emit (Client.Call (Native.startNotify_cb_ Demo.measurement 7%N))
                 Demo.connected) /\
     Client.read_gatt_char Demo.delegate u false Demo.connected
     = (Ok [Byte.x00; Byte.x48],
        Client.emit (Client.Call (Native.readCharacteristic_ Demo.measurement false))
          Demo.connected) /\
     Client.write_gatt_char Demo.delegate u [Byte.x01] false Demo.connected
     = (Ok tt,
        Client.emit (Client.Call
          (Native.writeCharacteristic_value_ Demo.measurement [Byte.x01])) Demo.connected) /\
     Client.stop_notify Demo.delegate u Demo.connected
     = (Raise (BleakError
          "Characteristic <coroutine object BleakClientCoreBluetooth.get_appropriate_uuid> not found!"),
        Demo.connected))
    ["2a37"; "00002a37-0000-1000-8000-00805f9b34fb"] /\
  (forall (app : Native.Delegate) (u : string) (c : Client.t),
     exists msg, Client.stop_notify app u c = (Raise (BleakError msg), c)).
Proof.
  split; [vm_compute; reflexivity|]. split.
  - repeat constructor; vm_compute; reflexivity.
  - intros app u c. eexists. apply stop_notify_run.
Qed.

(** ** Operations on a disconnected client *)





(** ** The cache of [get_services] *)

(** C2. The guard of [get_services] reads [_services], which is still
    [None] after [connect] has run discovery; a further [get_services] on
    the connected monitor places the three discovery calls a second time. *)
Theorem get_services_after_connect_discovers_again :
  fst (Client.connect Demo.delegate Demo.client) = Ok true /\
  Client._services Demo.connected = None /\
  List.filter Client.is_discovery_call (Client.trace Demo.connected)
  = [Client.Call Native.discoverServices;
     Client.Call (Native.discoverCharacteristics_ Demo.heart_rate);
     Client.Call (Native.discoverDescriptors_ Demo.measurement)] /\
  List.filter Client.is_discovery_call
    (Client.trace (snd (Client.get_services Demo.delegate Demo.connected)))
  = [Client.Call Native.discoverServices;
     Client.Call (Native.discoverCharacteristics_ Demo.heart_rate);
     Client.Call (Native.discoverDescriptors_ Demo.measurement);
     Client.Call Native.discoverServices;
     Client.Call (Native.discoverCharacteristics_ Demo.heart_rate);
     Client.Call (Native.discoverDescriptors_ Demo.measurement)].
Proof. repeat split; vm_compute; reflexivity. Qed.

(** The same for every delegate and every client on which [_services] is
    unset, as it is from [__init__] on: after a first [get_services], a
    second one starts with [discoverServices] again. *)
Lemma get_services_twice_discovers_twice app c :
  Client._services c = None ->
  exists rest,
    Client.trace (snd (Client.get_services app (snd (Client.get_services app c))))
    = (Client.trace (snd (Client.get_services app c))
       ++ Client.Call Native.discoverServices :: rest)%list.
Proof.
  intros H. apply get_services_discovers.
  now apply get_services_keeps_cache_unset.
Qed.

(** ** The order of discovery *)

Lemma perform_nil c : perform [] c = c.
Proof. destruct c. unfold perform. simpl. now rewrite app_nil_r. Qed.

Lemma perform_app s1 s2 c : perform s2 (perform s1 c) = perform (s1 ++ s2)%list c.
Proof.
  unfold perform, populate. simpl. rewrite fold_left_app. now rewrite <- app_assoc.
Qed.

Lemma perform_cons e s c : perform s (perform [e] c) = perform (e :: s) c.
Proof. apply (perform_app [e] s c). Qed.

Lemma await_perform {A} call (answer : Result A) c :
  Client.await call answer c = (answer, perform [Client.Call call] c).
Proof. now destruct c. Qed.

Lemma add_service_perform s c :
  Client.services_add_service s c = (Ok tt, perform [Client.AddService s] c).
Proof. now destruct c. Qed.

Lemma add_characteristic_perform ch c :
  Client.services_add_characteristic ch c = (Ok tt, perform [Client.AddCharacteristic ch] c).
Proof. now destruct c. Qed.

Lemma add_descriptor_perform d c :
  Client.services_add_descriptor d c = (Ok tt, perform [Client.AddDescriptor d] c).
Proof. now destruct c. Qed.

(** A loop whose every round performs its steps performs them all, round
    after round. *)
Lemma for_each_perform {A} (xs : list A) (body : A -> Client.M unit)
    (steps : A -> list Client.event) (P : A -> Prop) :
  Forall P xs ->
  (forall x c, P x -> body x c = (Ok tt, perform (steps x) c)) ->
  forall c, Client.for_each xs body c = (Ok tt, perform (concat (map steps xs)) c).
Proof.
  intros HP Hbody. induction HP as [|x xs Hx _ IH]; intros c;
    cbn [Client.for_each map concat].
  - now rewrite perform_nil.
  - erewrite bind_ok by (apply Hbody; exact Hx).
    rewrite IH. now rewrite perform_app.
Qed.

Section Discovery.

Variable app : Native.Delegate.

Lemma descriptors_loop (ch : Native.CBCharacteristic) (ds : list Native.CBDescriptor) c :
  Client.for_each ds (fun descriptor =>
    Client.services_add_descriptor
      (BleakGATTDescriptorCoreBluetooth descriptor (Native.characteristic_UUIDString ch))) c
  = (Ok tt,
     perform (map (fun d => Client.AddDescriptor
                      (BleakGATTDescriptorCoreBluetooth d
                         (Native.characteristic_UUIDString ch))) ds) c).
Proof.
  rewrite (for_each_perform ds _ (fun d => [Client.AddDescriptor
             (BleakGATTDescriptorCoreBluetooth d (Native.characteristic_UUIDString ch))])
             (fun _ => True)).
  - f_equal. f_equal. induction ds as [|d ds IH]; simpl; [reflexivity | now rewrite IH].
  - now apply Forall_forall.
  - intros d c' _. apply add_descriptor_perform.
Qed.

Lemma characteristic_round (ch : characteristic_tree) c :
  Native.on_discoverDescriptors_ app (fst ch) = Ok (snd ch) ->
  Client.bind
    (Client.await (Native.discoverDescriptors_ (fst ch))
       (Native.on_discoverDescriptors_ app (fst ch)))
    (fun descriptors =>
       Client.bind
         (Client.services_add_characteristic (BleakGATTCharacteristicCoreBluetooth (fst ch)))
         (fun _ =>
            Client.for_each descriptors (fun descriptor =>
              Client.services_add_descriptor
                (BleakGATTDescriptorCoreBluetooth descriptor
                   (Native.characteristic_UUIDString (fst ch)))))) c
  = (Ok tt, perform (characteristic_steps ch) c).
Proof.
  intros Hds.
  erewrite bind_ok by (rewrite await_perform, Hds; reflexivity).
  erewrite bind_ok by apply add_characteristic_perform.
  rewrite descriptors_loop. unfold characteristic_steps.
  now rewrite !perform_cons.
Qed.

Lemma service_round (s : service_tree) c :
  Native.on_discoverCharacteristics_ app (fst s) = Ok (map fst (snd s)) ->
  Forall (fun ch : characteristic_tree =>
            Native.on_discoverDescriptors_ app (fst ch) = Ok (snd ch)) (snd s) ->
  Client.bind
    (Client.await (Native.discoverCharacteristics_ (fst s))
       (Native.on_discoverCharacteristics_ app (fst s)))
    (fun characteristics =>
       Client.bind
         (Client.services_add_service (BleakGATTServiceCoreBluetooth (fst s)))
         (fun _ =>
            Client.for_each characteristics (fun characteristic =>
              Client.bind
                (Client.await (Native.discoverDescriptors_ characteristic)
                   (Native.on_discoverDescriptors_ app characteristic))
                (fun descriptors =>
                   Client.bind
                     (Client.services_add_characteristic
                        (BleakGATTCharacteristicCoreBluetooth characteristic))
                     (fun _ =>
                        Client.for_each descriptors (fun descriptor =>
                          Client.services_add_descriptor
                            (BleakGATTDescriptorCoreBluetooth descriptor
                               (Native.characteristic_UUIDString characteristic)))))))) c
  = (Ok tt, perform (service_steps s) c).
Proof.
  intros Hchs Hds.
  erewrite bind_ok by (rewrite await_perform, Hchs; reflexivity).
  erewrite bind_ok by apply add_service_perform.
  unfold service_steps.
  match goal with |- Client.for_each ?xs ?body _ = _ =>
    assert (Hloop : forall c',
              Client.for_each xs body c'
              = (Ok tt, perform (concat (map characteristic_steps (snd s))) c'))
  end.
  { clear Hchs. induction Hds as [|ch chs Hch _ IH]; intros c';
      cbn [Client.for_each map concat].
    - now rewrite perform_nil.
    - erewrite bind_ok by (apply characteristic_round; exact Hch).
      rewrite IH. now rewrite perform_app. }
  rewrite Hloop. now rewrite !perform_cons.
Qed.

(** [get_services] on a client with [_services] unset, against a delegate
    that exposes [services]. *)
Lemma get_services_run (services : list service_tree) c :
  exposes app services ->
  Client._services c = None ->
  Client.get_services app c
  = (Ok (populate (discovery_order services) (Client.self_services c)),
     Client.set__services_resolved true (perform (discovery_order services) c)).
Proof.
  intros [Hsvcs Hall] Hcache. unfold Client.get_services.
  erewrite bind_ok by (unfold Client.gets; rewrite Hcache; reflexivity).
  cbv beta iota.
  erewrite bind_ok by (rewrite await_perform, Hsvcs; reflexivity).
  assert (Hloop : forall c1,
    Client.for_each (map fst services) (fun service =>
      Client.bind
        (Client.await (Native.discoverCharacteristics_ service)
           (Native.on_discoverCharacteristics_ app service))
        (fun characteristics =>
           Client.bind
             (Client.services_add_service (BleakGATTServiceCoreBluetooth service))
             (fun _ =>
                Client.for_each characteristics (fun characteristic =>
                  Client.bind
                    (Client.await (Native.discoverDescriptors_ characteristic)
                       (Native.on_discoverDescriptors_ app characteristic))
                    (fun descriptors =>
                       Client.bind
                         (Client.services_add_characteristic
                            (BleakGATTCharacteristicCoreBluetooth characteristic))
                         (fun _ =>
                            Client.for_each descriptors (fun descriptor =>
                              Client.services_add_descriptor
                                (BleakGATTDescriptorCoreBluetooth descriptor
                                   (Native.characteristic_UUIDString characteristic))))))))) c1
    = (Ok tt, perform (concat (map service_steps services)) c1)).
  { clear Hsvcs. induction Hall as [|s ss [Hs1 Hs2] _ IH]; intros c1;
      cbn [Client.for_each map concat].
    - now rewrite perform_nil.
    - erewrite bind_ok by (apply service_round; assumption).
      rewrite IH. now rewrite perform_app. }
  erewrite bind_ok by apply Hloop.
  rewrite perform_cons. reflexivity.
Qed.

End Discovery.

(** C5. Against a delegate that exposes [services], [get_services] on a
    client whose [_services] is unset returns the collection, and the steps
    it has taken, delegate calls and additions alike, are exactly
    [discovery_order services] in that order; the collection is the old one
    with these additions made in that order. *)
Theorem discovery_follows_order
    (app : Native.Delegate) (services : list service_tree) (c : Client.t) :
  exposes app services ->
  Client._services c = None ->
  let c' := snd (Client.get_services app c) in
  fst (Client.get_services app c) = Ok (Client.self_services c') /\
  Client.trace c' = (Client.trace c ++ discovery_order services)%list /\
  Client.self_services c'
  = populate (discovery_order services) (Client.self_services c).
Proof.
  intros Hex Hcache c'. subst c'.
  rewrite (get_services_run app services c Hex Hcache). repeat split.
Qed.

Lemma discovery_follows_order_witness :
  Client.trace (snd (Client.get_services Demo.delegate Demo.client))
  = [Client.Call Native.discoverServices;
     Client.Call (Native.discoverCharacteristics_ Demo.heart_rate);
     Client.AddService (BleakGATTServiceCoreBluetooth Demo.heart_rate);
     Client.Call (Native.discoverDescriptors_ Demo.measurement);
     Client.AddCharacteristic (BleakGATTCharacteristicCoreBluetooth Demo.measurement);
     Client.AddDescriptor (BleakGATTDescriptorCoreBluetooth Demo.config "2A37")].
Proof.
  assert (Hex : exposes Demo.delegate [(Demo.heart_rate, [(Demo.measurement, [Demo.config])])]).
  { split; [reflexivity|]. repeat constructor. }
  exact (proj1 (proj2 (discovery_follows_order Demo.delegate
                         [(Demo.heart_rate, [(Demo.measurement, [Demo.config])])]
                         Demo.client Hex eq_refl))).
Defined.

(** The thermometer: two services, discovered depth first. *)
Example thermometer_discovery_trace :
  Client.trace (snd (Client.get_services Demo.thermometer (Client.init "T")))
  = [Client.Call Native.discoverServices;
     Client.Call (Native.discoverCharacteristics_ Demo.health);
     Client.AddService (BleakGATTServiceCoreBluetooth Demo.health);
     Client.Call (Native.discoverDescriptors_ Demo.temperature);
     Client.AddCharacteristic (BleakGATTCharacteristicCoreBluetooth Demo.temperature);
     Client.AddDescriptor (BleakGATTDescriptorCoreBluetooth Demo.indication "2A1C");
     Client.AddDescriptor (BleakGATTDescriptorCoreBluetooth Demo.description "2A1C");
     Client.Call (Native.discoverDescriptors_ Demo.interval);
     Client.AddCharacteristic (BleakGATTCharacteristicCoreBluetooth Demo.interval);
     Client.Call (Native.discoverCharacteristics_ Demo.battery);
     Client.AddService (BleakGATTServiceCoreBluetooth Demo.battery);
     Client.Call (Native.discoverDescriptors_ Demo.level);
     Client.AddCharacteristic (BleakGATTCharacteristicCoreBluetooth Demo.level);
     Client.AddDescriptor (BleakGATTDescriptorCoreBluetooth Demo.format "2A19")].
Proof. vm_compute. reflexivity. Qed.

Example thermometer_discovery_order :
  discovery_order
    [(Demo.health, [(Demo.temperature, [Demo.indication; Demo.description]);
                    (Demo.interval, [])]);
     (Demo.battery, [(Demo.level, [Demo.format])])]
  = Client.trace (snd (Client.get_services Demo.thermometer (Client.init "T"))).
Proof. vm_compute. reflexivity. Qed.

(** After discovery on the monitor the characteristic and the descriptor are
    found by UUID and by handle. *)
Example monitor_lookups :
  get_characteristic (Client.self_services Demo.connected) (Str "2A37")
  = Some (BleakGATTCharacteristicCoreBluetooth Demo.measurement) /\
  get_descriptor (Client.self_services Demo.connected) 42
  = Some (BleakGATTDescriptorCoreBluetooth Demo.config "2A37").
Proof. split; vm_compute; reflexivity. Qed.

(** ** Scanning and connecting *)

(** The device made for the monitor: manufacturer id 76 from the first two
    octets, little-endian, and the remaining octets in hex. *)
Example monitor_scan :
  fst (Client.scan_for_devices Demo.delegate 10 Demo.client)
  = Ok [ {| address := "7E5A1C0B-33D2-4F6E-9A10-0C2B4D6E8F01";
            name := "HRM";
            details := Demo.monitor;
            manufacturer_data := {[ 76 := "02a5" ]} |} ].
Proof. vm_compute. reflexivity. Qed.

Lemma scan_for_devices_run app timeout c :
  Client.scan_for_devices app timeout c =
  (match Native.on_scanForPeripherals_ app timeout with
   | Ok peripherals => Client.scan_loop app 0 peripherals []
   | Raise e => Raise e
   end,
   Client.emit (Client.Call (Native.scanForPeripherals_ timeout)) c).
Proof.
  unfold Client.scan_for_devices, Client.bind, Client.await, Client.lift.
  now destruct (Native.on_scanForPeripherals_ app timeout).
Qed.

Lemma scan_step_sound app i peripheral found found' :
  Client.scan_step app i peripheral found = Ok found' ->
  found' = found \/
  exists d, found' = (found ++ [d])%list /\ from_advertiser app i [peripheral] d.
Proof.
  unfold Client.scan_step.
  destruct (Native.advertisement_data_list app !! i) as [adv|] eqn:Hadv; [|discriminate].
  destruct (adv !! "kCBAdvDataManufacturerData") as [[|b bs]|] eqn:Hkey;
    intros [= <-]; auto.
  right. eexists. split; [reflexivity|].
  exists 0%nat, adv, (b :: bs). rewrite Nat.add_0_r. repeat split; assumption.
Qed.

Lemma scan_loop_sound app peripherals : forall i found found',
  Client.scan_loop app i peripherals found = Ok found' ->
  forall d, In d found' -> In d found \/ from_advertiser app i peripherals d.
Proof.
  induction peripherals as [|p ps IH]; intros i found found'; simpl.
  - intros [= <-] d Hd. now left.
  - destruct (Client.scan_step app i p found) as [found1|e] eqn:Hstep; [|discriminate].
    intros Hloop d Hd.
    destruct (IH _ _ _ Hloop d Hd) as [Hin|(j & adv & data & Hj & Hadv & Hkey & Haddr)].
    + destruct (scan_step_sound _ _ _ _ _ Hstep) as [->|(d' & -> & Hd')]; [now left|].
      apply in_app_or in Hin. destruct Hin as [Hin|[<-|[]]]; [now left|].
      right. destruct Hd' as (j & adv & data & Hj & Hadv & Hkey & Haddr).
      destruct j as [|j]; [|discriminate].
      exists 0%nat, adv, data. repeat split; assumption.
    + right. exists (S j), adv, data. repeat split; try assumption.
      now rewrite <- Nat.add_succ_comm.
Qed.

(** With an advertisement for every peripheral the loop does not raise. *)
Lemma scan_loop_total app peripherals : forall i found,
  (i + length peripherals <= length (Native.advertisement_data_list app))%nat ->
  exists found', Client.scan_loop app i peripherals found = Ok found'.
Proof.
  induction peripherals as [|p ps IH]; intros i found Hlen; simpl in *.
  - now exists found.
  - unfold Client.scan_step.
    destruct (Native.advertisement_data_list app !! i) as [adv|] eqn:Hadv.
    + destruct (adv !! "kCBAdvDataManufacturerData") as [[|b bs]|]; apply IH; lia.
    + apply lookup_ge_None in Hadv. lia.
Qed.

Lemma filter_none {A} (f : A -> bool) (l : list A) :
  (forall x, In x l -> f x = false) -> List.filter f l = [].
Proof.
  induction l as [|x l IH]; intros H; simpl; [reflexivity|].
  rewrite (H x) by now left. apply IH. intros y Hy. apply H. now right.
Qed.

Lemma filter_first {A} (f : A -> bool) (before after : list A) (x : A) :
  (forall y, In y before -> f y = false) -> f x = true ->
  List.filter f (before ++ x :: after) = x :: List.filter f after.
Proof.
  intros Hb Hx. rewrite List.filter_app, (filter_none f before Hb). simpl. now rewrite Hx.
Qed.

(** [connect], after a scan that gave [devices]. *)
Lemma connect_run app c devices :
  fst (Client.scan_for_devices app 10 c) = Ok devices ->
  Client.connect app c =
  let c1 := Client.emit (Client.Call (Native.scanForPeripherals_ 10)) c in
  match List.filter (fun x => String.eqb (upper (address x)) (upper (Client.self_address c)))
          devices with
  | [] => (Raise (BleakError ("Device with address " ++ Client.self_address c
                                ++ " was not found")), c1)
  | first :: _ =>
      let c2 := Client.set_isConnected true
                  (Client.emit (Client.Call (Native.connect_ (details first)))
                     (Client.set__device_info (Some (details first)) c1)) in
      match Native.on_connect_ app (details first) with
      | Ok _ =>
          match Client.get_services app c2 with
          | (Ok _, c3) => (Ok true, c3)
          | (Raise e, c3) => (Raise e, c3)
          end
      | Raise e =>
          (Raise e, Client.emit (Client.Call (Native.connect_ (details first)))
                      (Client.set__device_info (Some (details first)) c1))
      end
  end.
Proof.
  intros Hscan. unfold Client.connect.
  unfold Client.bind at 1.
  rewrite scan_for_devices_run in Hscan |- *. cbn [fst] in Hscan. rewrite Hscan.
  unfold Client.bind at 1. unfold Client.gets at 1. cbn [Client.emit Client.self_address].
  destruct (List.filter _ devices) as [|first rest]; [reflexivity|].
  unfold Client.bind at 1. unfold Client.modify at 1.
  unfold Client.bind at 1. unfold Client.delegate_connect_.
  unfold Client.bind at 1. unfold Client.await at 1.
  destruct (Native.on_connect_ app (details first)); [|reflexivity].
  unfold Client.bind at 1. unfold Client.modify at 1. unfold Client.ret at 1.
  unfold Client.bind at 1.
  match goal with |- context [Client.get_services app ?x] =>
    destruct (Client.get_services app x) as [[coll|e] c3] end; reflexivity.
Qed.

(** C7. After a scan that gave [devices]: when no device's address equals
    the client's address up to case, [connect] raises the "was not found"
    [BleakError] and has placed the scan call only; when [first] is the
    first device whose address does, and the delegate connects and discovery
    succeeds, [connect] returns [True], having called the delegate's
    [connect_] on that device's peripheral and then [discoverServices]. *)
Theorem connect_finds_first_match_or_raises
    (app : Native.Delegate) (c : Client.t) (devices : list BLEDevice) :
  Client._services c = None ->
  fst (Client.scan_for_devices app 10 c) = Ok devices ->
  let c1 := Client.emit (Client.Call (Native.scanForPeripherals_ 10)) c in
  ((forall d, In d devices -> upper (address d) <> upper (Client.self_address c)) ->
   Client.connect app c
   = (Raise (BleakError ("Device with address " ++ Client.self_address c
                           ++ " was not found")), c1)) /\
  (forall (before after : list BLEDevice) (first : BLEDevice)
          (coll : BleakGATTServiceCollection) (c3 : Client.t),
     devices = (before ++ first :: after)%list ->
     (forall d, In d before -> upper (address d) <> upper (Client.self_address c)) ->
     upper (address first) = upper (Client.self_address c) ->
     (exists b, Native.on_connect_ app (details first) = Ok b) ->
     Client.get_services app
       (Client.set_isConnected true
          (Client.emit (Client.Call (Native.connect_ (details first)))
             (Client.set__device_info (Some (details first)) c1)))
     = (Ok coll, c3) ->
     Client.connect app c = (Ok true, c3) /\
     exists rest,
       Client.trace c3
       = (Client.trace c
          ++ Client.Call (Native.scanForPeripherals_ 10)
          :: Client.Call (Native.connect_ (details first))
          :: Client.Call Native.discoverServices
          :: rest)%list).
Proof.
  intros Hcache Hscan c1. split.
  - intros Hnone. rewrite (connect_run app c devices Hscan). cbv zeta.
    rewrite filter_none; [reflexivity|].
    intros d Hd. apply String.eqb_neq. now apply Hnone.
  - intros before after first coll c3 -> Hbefore Hfirst [b Hb] Hget.
    rewrite (connect_run app c _ Hscan). cbv zeta.
    rewrite filter_first.
    + rewrite Hb. fold c1. rewrite Hget. split; [reflexivity|].
      match type of Hget with Client.get_services app ?c2 = _ =>
        destruct (get_services_discovers app c2 Hcache) as [rest Hrest] end.
      rewrite Hget in Hrest. cbn [snd] in Hrest. exists rest. rewrite Hrest.
      cbn [Client.trace Client.set_isConnected Client.emit Client.set__device_info].
      subst c1. cbn [Client.trace Client.emit].
      now rewrite <- !app_assoc.
    + intros d Hd. apply String.eqb_neq. now apply Hbefore.
    + now apply String.eqb_eq.
Qed.

Lemma connect_finds_first_match_or_raises_witness :
  Client.connect Demo.delegate (Client.init "00000000-0000-0000-0000-000000000000")
  = (Raise (BleakError
       "Device with address 00000000-0000-0000-0000-000000000000 was not found"),
     Client.emit (Client.Call (Native.scanForPeripherals_ 10))
       (Client.init "00000000-0000-0000-0000-000000000000")) /\
  Client.connect Demo.delegate Demo.client = (Ok true, Demo.connected).
Proof.
  split.
  - refine (proj1 (connect_finds_first_match_or_raises Demo.delegate
                     (Client.init "00000000-0000-0000-0000-000000000000")
                     _ eq_refl eq_refl) _).
    intros d [<-|[]]. vm_compute. discriminate.
  - refine (proj1 (proj2 (connect_finds_first_match_or_raises Demo.delegate Demo.client
                            _ eq_refl eq_refl)
                     [] [] _ _ _ eq_refl _ _ _ _)).
    + intros d [].
    + vm_compute. reflexivity.
    + exists true. reflexivity.
    + vm_compute. reflexivity.
Defined.

(** C10. With an advertisement for every scanned peripheral,
    [scan_for_devices] returns devices only for peripherals whose
    advertisement has the [kCBAdvDataManufacturerData] entry; and when every
    scanned peripheral whose identifier equals the client's address up to
    case advertises without that entry, [connect] raises the "was not found"
    [BleakError] after the scan. *)
Theorem scan_for_devices_requires_manufacturer_data
    (app : Native.Delegate) (c : Client.t) (peripherals : list Native.CBPeripheral) :
  Native.on_scanForPeripherals_ app 10 = Ok peripherals ->
  (length peripherals <= length (Native.advertisement_data_list app))%nat ->
  (exists devices,
     Client.scan_for_devices app 10 c
     = (Ok devices, Client.emit (Client.Call (Native.scanForPeripherals_ 10)) c) /\
     forall d, In d devices ->
       exists (i : nat) (adv : Native.advertisement_data) (data : list Byte.byte),
         peripherals !! i = Some (details d) /\
         Native.advertisement_data_list app !! i = Some adv /\
         adv !! "kCBAdvDataManufacturerData" = Some data /\
         address d = Native.identifier_UUIDString (details d)) /\
  ((forall (i : nat) (p : Native.CBPeripheral) (adv : Native.advertisement_data),
      peripherals !! i = Some p ->
      Native.advertisement_data_list app !! i = Some adv ->
      upper (Native.identifier_UUIDString p) = upper (Client.self_address c) ->
      adv !! "kCBAdvDataManufacturerData" = None) ->
   Client.connect app c
   = (Raise (BleakError ("Device with address " ++ Client.self_address c
                           ++ " was not found")),
      Client.emit (Client.Call (Native.scanForPeripherals_ 10)) c)).
Proof.
  intros Hscan Hlen.
  destruct (scan_loop_total app peripherals 0 [] Hlen) as [devices Hloop].
  assert (Hrun : Client.scan_for_devices app 10 c
                 = (Ok devices, Client.emit (Client.Call (Native.scanForPeripherals_ 10)) c))
    by (rewrite scan_for_devices_run, Hscan, Hloop; reflexivity).
  assert (Hfrom : forall d, In d devices -> from_advertiser app 0 peripherals d).
  { intros d Hd. destruct (scan_loop_sound app peripherals 0 [] devices Hloop d Hd) as [[]|H].
    exact H. }
  split.
  - exists devices. split; [exact Hrun|]. intros d Hd. exact (Hfrom d Hd).
  - intros Hmissing. rewrite (connect_run app c devices) by (rewrite Hrun; reflexivity).
    cbv zeta. rewrite filter_none; [reflexivity|].
    intros d Hd. apply String.eqb_neq. intros Heq.
    destruct (Hfrom d Hd) as (j & adv & data & Hj & Hadv & Hkey & Haddr).
    rewrite Haddr in Heq. rewrite (Hmissing j _ adv Hj Hadv Heq) in Hkey. discriminate.
Qed.

Lemma scan_for_devices_requires_manufacturer_data_witness :
  Client.connect Demo.delegate Demo.beacon_client
  = (Raise (BleakError
       "Device with address 11112222-3333-4444-5555-666677778888 was not found"),
     Client.emit (Client.Call (Native.scanForPeripherals_ 10)) Demo.beacon_client).
Proof.
  refine (proj2 (scan_for_devices_requires_manufacturer_data Demo.delegate Demo.beacon_client
                   [Demo.beacon; Demo.monitor] eq_refl _) _).
  - simpl. lia.
  - intros [|[|i]] p adv Hp Hadv Haddr; simpl in Hp, Hadv.
    + injection Hadv as <-. reflexivity.
    + injection Hp as <-. vm_compute in Haddr. discriminate.
    + discriminate.
Defined.

(** ** The server's scoped bracket *)

Section ServerBracket.

Context {S : Type} {backend : Server.Backend S}.

Lemma aenter_run (o : Server.t S) :
  Server.__aenter__ o =
  (match fst (Server.start (Server.self o)) with
   | Ok _ => Ok (snd (Server.start (Server.self o)))
   | Raise e => Raise e
   end,
   {| Server.self := snd (Server.start (Server.self o));
      Server.services := Server.services o;
      Server.trace := (Server.trace o ++ [Server.Start])%list |}).
Proof.
  unfold Server.__aenter__, Server.run.
  now destruct (Server.start (Server.self o)) as [[r|e] s].
Qed.

Lemma aexit_run (exc : option exn) (o : Server.t S) :
  Server.__aexit__ exc o =
  (match fst (Server.stop (Server.self o)) with
   | Ok _ => Ok tt
   | Raise e => Raise e
   end,
   {| Server.self := snd (Server.stop (Server.self o));
      Server.services := Server.services o;
      Server.trace := (Server.trace o ++ [Server.Stop])%list |}).
Proof.
  unfold Server.__aexit__, Server.run.
  now destruct (Server.stop (Server.self o)) as [[r|e] s].
Qed.

Lemma async_with_run {A} (body : S -> Result A * S) (o : Server.t S) r s1 :
  Server.start (Server.self o) = (Ok r, s1) ->
  Server.async_with body o =
  (match fst (body s1), fst (Server.stop (snd (body s1))) with
   | _, Raise e' => Raise e'
   | Ok a, Ok _ => Ok a
   | Raise e, Ok _ => Raise e
   end,
   {| Server.self := snd (Server.stop (snd (body s1)));
      Server.services := Server.services o;
      Server.trace := (Server.trace o ++ [Server.Start; Server.Body; Server.Stop])%list |}).
Proof.
  intros Hstart. unfold Server.async_with. rewrite aenter_run, Hstart.
  unfold Server.run. cbn [fst snd Server.self Server.services Server.trace].
  destruct (body s1) as [[a|e] s2]; rewrite aexit_run;
    cbn [fst snd Server.self Server.services Server.trace];
    destruct (Server.stop s2) as [[r2|e2] s3]; cbn [fst snd];
    now rewrite <- !app_assoc.
Qed.

End ServerBracket.

(** C9. [__aenter__] runs [start] on the server, and hands the server out
    only when [start] has returned; [__aexit__] runs [stop], whatever
    exception information it is given; so a block bracketed by the two, once
    entered, is followed by [stop] on the state the block left, both when
    the block returns and when it raises. *)
Theorem server_bracket_starts_and_stops
    {S : Type} {backend : Server.Backend S} (o : Server.t S) :
  (Server.trace (snd (Server.__aenter__ o)) = (Server.trace o ++ [Server.Start])%list /\
   Server.self (snd (Server.__aenter__ o)) = snd (Server.start (Server.self o)) /\
   forall s, fst (Server.__aenter__ o) = Ok s ->
             exists r, Server.start (Server.self o) = (Ok r, s)) /\
  (forall exc : option exn,
     Server.trace (snd (Server.__aexit__ exc o)) = (Server.trace o ++ [Server.Stop])%list /\
     Server.self (snd (Server.__aexit__ exc o)) = snd (Server.stop (Server.self o))) /\
  (forall (A : Type) (body : S -> Result A * S) (r : bool) (s1 : S),
     Server.start (Server.self o) = (Ok r, s1) ->
     let o' := snd (Server.async_with body o) in
     Server.trace o' = (Server.trace o ++ [Server.Start; Server.Body; Server.Stop])%list /\
     Server.self o' = snd (Server.stop (snd (body s1))) /\
     (forall e, fst (body s1) = Raise e -> exists e', fst (Server.async_with body o) = Raise e')).
Proof.
  split; [|split].
  - rewrite aenter_run. cbn [fst snd Server.trace Server.self]. repeat split.
    intros s Hs. destruct (Server.start (Server.self o)) as [[r|e] s'];
      cbn [fst snd] in Hs; [|discriminate].
    injection Hs as <-. now exists r.
  - intros exc. rewrite aexit_run. split; reflexivity.
  - intros A body r s1 Hstart o'. subst o'.
    rewrite (async_with_run body o r s1 Hstart). cbn [fst snd Server.self Server.trace].
    repeat split. intros e ->.
    destruct (fst (Server.stop (snd (body s1)))); eauto.
Qed.

Lemma server_bracket_starts_and_stops_witness :
  Server.trace (snd (Server.async_with Demo.failing_block Demo.server))
  = [Server.Start; Server.Body; Server.Stop] /\
  Server.self (snd (Server.async_with Demo.failing_block Demo.server))
  = {| Demo.started := 1; Demo.stopped := 1 |}.
Proof.
  assert (Hstart : Server.start (Server.self Demo.server)
                   = (Ok true, {| Demo.started := 1; Demo.stopped := 0 |}))
    by reflexivity.
  destruct (proj2 (proj2 (server_bracket_starts_and_stops Demo.server)) unit
              Demo.failing_block true {| Demo.started := 1; Demo.stopped := 0 |} Hstart)
    as (Htrace & Hself & _).
  split; [exact Htrace | exact Hself].
Defined.

(** * Further properties *)

(** ** Strings *)

Lemma upper_ascii_idempotent ch : upper_ascii (upper_ascii ch) = upper_ascii ch.
Proof. destruct ch as [[] [] [] [] [] [] [] []]; reflexivity. Qed.

Lemma upper_idempotent s : upper (upper s) = upper s.
Proof.
  induction s as [|ch s IH]; [reflexivity|]. cbn [upper].
  now rewrite upper_ascii_idempotent, IH.
Qed.

Lemma upper_length s : String.length (upper s) = String.length s.
Proof. induction s as [|ch s IH]; [reflexivity|]. cbn [upper String.length]. now rewrite IH. Qed.

Lemma substring_length n m s :
  (n + m <= String.length s)%nat -> String.length (substring n m s) = m.
Proof.
  revert n m. induction s as [|ch s IH]; intros n m H; cbn [String.length] in H.
  - assert (n = 0%nat) by lia. assert (m = 0%nat) by lia. subst. reflexivity.
  - destruct n as [|n]; destruct m as [|m]; cbn [substring String.length].
    + reflexivity.
    + rewrite IH by lia. reflexivity.
    + apply IH. lia.
    + apply IH. lia.
Qed.

(** ** The normaliser, applied twice *)

Lemma get_appropriate_uuid_outcome app u c k :
  fst (Client.get_appropriate_uuid app u c) = Ok k ->
  String.length u <> 4%nat ->
  exists octets base,
    Native.CBUUID_data app Client.test_uuid = Ok base /\
    Native.CBUUID_data app u = Ok octets /\
    k = if Z.land (from_bytes_big octets) (from_bytes_big base) =? from_bytes_big octets
        then upper (slice 4 8 u) else upper u.
Proof.
  intros Hk L.
  destruct (Native.CBUUID_data app Client.test_uuid) as [base|e] eqn:Hbase.
  - destruct (Native.CBUUID_data app u) as [octets|e] eqn:Hoct.
    + exists octets, base. repeat split.
      rewrite (get_appropriate_uuid_masked app u c octets base L Hbase Hoct) in Hk.
      cbn [fst] in Hk. now injection Hk as <-.
    + exfalso. revert Hk. unfold Client.get_appropriate_uuid.
      apply Nat.eqb_neq in L. rewrite L.
      unfold Client.is_uuid_16bit_compatible, Client.convert_uuid_to_int, Client.bind,
        Client.lift. rewrite Hbase, Hoct. discriminate.
  - exfalso. revert Hk. unfold Client.get_appropriate_uuid.
    apply Nat.eqb_neq in L. rewrite L.
    unfold Client.is_uuid_16bit_compatible, Client.convert_uuid_to_int, Client.bind,
      Client.lift. rewrite Hbase. discriminate.
Qed.

(** X1. What [get_appropriate_uuid] returns is a fixed point of it: for a
    UUID string that is 4 characters long or at least 8, and that CBUUID reads
    the same in upper case, normalising the result again gives the result. *)
Theorem get_appropriate_uuid_idempotent
    (app : Native.Delegate) (_uuid k : string) (c : Client.t) :
  fst (Client.get_appropriate_uuid app _uuid c) = Ok k ->
  (String.length _uuid <> 4%nat -> (8 <= String.length _uuid)%nat) ->
  Native.CBUUID_data app (upper _uuid) = Native.CBUUID_data app _uuid ->
  fst (Client.get_appropriate_uuid app k c) = Ok k.
Proof.
  intros Hk Hlen Hcase.
  destruct (Nat.eq_dec (String.length _uuid) 4%nat) as [L|L].
  - rewrite (get_appropriate_uuid_short app _uuid c L) in Hk. cbn [fst] in Hk.
    injection Hk as <-.
    rewrite get_appropriate_uuid_short by (now rewrite upper_length).
    cbn [fst]. now rewrite upper_idempotent.
  - destruct (get_appropriate_uuid_outcome app _uuid c k Hk L)
      as (octets & base & Hbase & Hoct & ->).
    destruct (Z.land (from_bytes_big octets) (from_bytes_big base) =? from_bytes_big octets)
      eqn:Hmask.
    + rewrite get_appropriate_uuid_short.
      * cbn [fst]. now rewrite upper_idempotent.
      * rewrite upper_length. unfold slice. apply substring_length.
        specialize (Hlen L). lia.
    + rewrite (get_appropriate_uuid_masked app (upper _uuid) c octets base).
      * cbn [fst]. rewrite Hmask. now rewrite upper_idempotent.
      * now rewrite upper_length.
      * exact Hbase.
      * now rewrite Hcase.
Qed.

Lemma get_appropriate_uuid_idempotent_witness :
  fst (Client.get_appropriate_uuid Demo.delegate "2A37" Demo.client) = Ok "2A37" /\
  fst (Client.get_appropriate_uuid Demo.delegate
         "A1B2C3D4-1234-5678-9ABC-DEF012345678" Demo.client)
  = Ok "A1B2C3D4-1234-5678-9ABC-DEF012345678".
Proof.
  split.
  - apply (get_appropriate_uuid_idempotent Demo.delegate
             "00002a37-0000-1000-8000-00805f9b34fb" "2A37" Demo.client).
    + vm_compute. reflexivity.
    + intros _. vm_compute. lia.
    + vm_compute. reflexivity.
  - apply (get_appropriate_uuid_idempotent Demo.delegate
             "a1b2c3d4-1234-5678-9abc-def012345678"
             "A1B2C3D4-1234-5678-9ABC-DEF012345678" Demo.client).
    + vm_compute. reflexivity.
    + intros _. vm_compute. lia.
    + vm_compute. reflexivity.
Defined.

(** ** The mask test, octet by octet *)

Lemma octet_range b : 0 <= Z.of_N (Byte.to_N b) < 256.
Proof. pose proof (Byte.to_N_bounded b). lia. Qed.

Lemma from_bytes_big_snoc bs b :
  from_bytes_big (bs ++ [b]) = from_bytes_big bs * 256 + Z.of_N (Byte.to_N b).
Proof. unfold from_bytes_big. now rewrite fold_left_app. Qed.

Lemma from_bytes_big_little bs : from_bytes_big bs = from_bytes_little (rev bs).
Proof.
  induction bs as [|b bs IH] using rev_ind; [reflexivity|].
  rewrite from_bytes_big_snoc, rev_app_distr. cbn [rev app from_bytes_little].
  rewrite IH. lia.
Qed.

Lemma from_bytes_little_range bs :
  0 <= from_bytes_little bs < 256 ^ Z.of_nat (length bs).
Proof.
  induction bs as [|b bs IH]; [cbn; lia|].
  cbn [from_bytes_little length]. rewrite Nat2Z.inj_succ, Z.pow_succ_r by lia.
  pose proof (octet_range b). lia.
Qed.

Lemma from_bytes_big_range bs :
  0 <= from_bytes_big bs < 256 ^ Z.of_nat (length bs).
Proof.
  rewrite from_bytes_big_little. rewrite <- (length_rev bs). apply from_bytes_little_range.
Qed.

Lemma testbit_split x a n :
  0 <= x < 256 -> 0 <= n ->
  Z.testbit (x + 256 * a) n = if n <? 8 then Z.testbit x n else Z.testbit a (n - 8).
Proof.
  intros Hx Hn. destruct (Z.ltb_spec n 8) as [Hlt|Hge].
  - rewrite <- (Z.mod_pow2_bits_low (x + 256 * a) 8 n) by lia. f_equal.
    change (2 ^ 8) with 256. rewrite (Z.mul_comm 256 a), Z.mod_add by lia.
    apply Z.mod_small. lia.
  - replace n with ((n - 8) + 8) at 1 by lia.
    rewrite <- Z.div_pow2_bits by lia. f_equal.
    change (2 ^ 8) with 256. rewrite (Z.mul_comm 256 a), Z.div_add by lia.
    rewrite Z.div_small by lia. lia.
Qed.

Lemma land_octet_range x y : 0 <= x < 256 -> 0 <= Z.land x y < 256.
Proof.
  intros Hx.
  assert (E : Z.land x y = Z.land x y mod 2 ^ 8).
  { rewrite <- (Z.land_ones (Z.land x y)) by lia.
    rewrite <- Z.land_assoc, (Z.land_comm y), Z.land_assoc, Z.land_ones by lia.
    change (2 ^ 8) with 256. now rewrite (Z.mod_small x) by lia. }
  rewrite E. change (2 ^ 8) with 256. apply Z.mod_pos_bound. lia.
Qed.

Lemma land_split x y a b :
  0 <= x < 256 -> 0 <= y < 256 ->
  Z.land (x + 256 * a) (y + 256 * b) = Z.land x y + 256 * Z.land a b.
Proof.
  intros Hx Hy. apply Z.bits_inj'. intros n Hn.
  rewrite Z.land_spec, !testbit_split by (try apply land_octet_range; lia).
  destruct (n <? 8); now rewrite Z.land_spec.
Qed.

Lemma land_little_within xs : forall ys,
  length xs = length ys ->
  (Z.land (from_bytes_little xs) (from_bytes_little ys) =? from_bytes_little xs)
  = within_mask xs ys.
Proof.
  induction xs as [|x xs IH]; intros [|y ys] Hlen; try discriminate; [reflexivity|].
  cbn [from_bytes_little within_mask combine forallb fst snd].
  fold (within_mask xs ys). rewrite <- IH by (cbn in Hlen; lia).
  pose proof (octet_range x) as Hx. pose proof (octet_range y) as Hy.
  rewrite land_split by assumption.
  pose proof (land_octet_range (Z.of_N (Byte.to_N x)) (Z.of_N (Byte.to_N y)) Hx) as Hl.
  unfold octet_within.
  replace (N.land (Byte.to_N x) (Byte.to_N y) =? Byte.to_N x)%N
    with (Z.land (Z.of_N (Byte.to_N x)) (Z.of_N (Byte.to_N y)) =? Z.of_N (Byte.to_N x)).
  2:{ rewrite <- N2Z.inj_land.
      destruct (N.eqb_spec (N.land (Byte.to_N x) (Byte.to_N y)) (Byte.to_N x)) as [E|E].
      - rewrite E. apply Z.eqb_refl.
      - apply Z.eqb_neq. intros E'. apply E. now apply N2Z.inj. }
  destruct (Z.eqb_spec (Z.land (Z.of_N (Byte.to_N x)) (Z.of_N (Byte.to_N y)))
              (Z.of_N (Byte.to_N x))) as [E1|E1];
    destruct (Z.eqb_spec (Z.land (from_bytes_little xs) (from_bytes_little ys))
                (from_bytes_little xs)) as [E2|E2]; cbn [andb];
    first [apply Z.eqb_eq | apply Z.eqb_neq]; lia.
Qed.

Lemma within_mask_rev xs ys :
  length xs = length ys -> within_mask (rev xs) (rev ys) = within_mask xs ys.
Proof.
  intros Hlen. unfold within_mask.
  assert (E : combine (rev xs) (rev ys) = rev (combine xs ys)).
  { revert ys Hlen. induction xs as [|x xs IH]; intros [|y ys] Hlen; try discriminate;
      [reflexivity|].
    cbn [rev combine]. rewrite <- IH by (cbn in Hlen; lia).
    assert (Hr : length (rev xs) = length (rev ys))
      by (rewrite !length_rev; cbn in Hlen; lia).
    clear IH Hlen. revert Hr. generalize (rev xs) (rev ys). intros l.
    induction l as [|a l IHl]; intros [|b l'] Hr; try discriminate; [reflexivity|].
    cbn [app combine]. f_equal. apply IHl. cbn in Hr. lia. }
  rewrite E.
  generalize (combine xs ys). intros l.
  induction l as [|p l IH]; [reflexivity|].
  cbn [rev forallb]. rewrite forallb_app. cbn [forallb]. rewrite IH.
  destruct (octet_within (fst p) (snd p)), (forallb _ l); reflexivity.
Qed.

Lemma land_big_within xs ys :
  length xs = length ys ->
  (Z.land (from_bytes_big xs) (from_bytes_big ys) =? from_bytes_big xs) = within_mask xs ys.
Proof.
  intros Hlen. rewrite !from_bytes_big_little.
  rewrite land_little_within by (now rewrite !length_rev).
  now apply within_mask_rev.
Qed.

(** X2. The mask test of [is_uuid_16bit_compatible] is an octet-by-octet
    test: when CBUUID gives as many octets for the UUID as for
    [0000FFFF-0000-1000-8000-00805F9B34FB], the UUID is "16-bit compatible"
    exactly when every octet of it has its bits within the mask's octet at
    the same place, and [get_appropriate_uuid] returns characters 4..7 in
    that case and the whole string otherwise (upper-cased). *)
Theorem is_uuid_16bit_compatible_octetwise
    (app : Native.Delegate) (_uuid : string) (c : Client.t)
    (octets base : list Byte.byte) :
  Native.CBUUID_data app "0000FFFF-0000-1000-8000-00805F9B34FB" = Ok base ->
  Native.CBUUID_data app _uuid = Ok octets ->
  length octets = length base ->
  Client.is_uuid_16bit_compatible app _uuid c = (Ok (within_mask octets base), c) /\
  (String.length _uuid <> 4%nat ->
   Client.get_appropriate_uuid app _uuid c
   = (Ok (if within_mask octets base then upper (slice 4 8 _uuid) else upper _uuid), c)).
Proof.
  intros Hbase Hoct Hlen. split.
  - unfold Client.is_uuid_16bit_compatible.
    rewrite (bind_ok _ _ c (from_bytes_big base) c)
      by (apply convert_uuid_to_int_ok; exact Hbase).
    rewrite (bind_ok _ _ c (from_bytes_big octets) c)
      by (apply convert_uuid_to_int_ok; exact Hoct).
    unfold Client.ret. rewrite Z.eqb_sym. now rewrite land_big_within.
  - intros L. rewrite (get_appropriate_uuid_masked app _uuid c octets base L Hbase Hoct).
    now rewrite land_big_within.
Qed.

Lemma is_uuid_16bit_compatible_octetwise_witness :
  Client.is_uuid_16bit_compatible Demo.delegate
    "00002a37-0000-1000-8000-00805f9b34fb" Demo.client = (Ok true, Demo.client) /\
  Client.is_uuid_16bit_compatible Demo.delegate
    "a1b2c3d4-1234-5678-9abc-def012345678" Demo.client = (Ok false, Demo.client).
Proof.
  split.
  - apply (is_uuid_16bit_compatible_octetwise Demo.delegate
             "00002a37-0000-1000-8000-00805f9b34fb" Demo.client
             [Byte.x00; Byte.x00; Byte.x2a; Byte.x37; Byte.x00; Byte.x00;
              Byte.x10; Byte.x00; Byte.x80; Byte.x00; Byte.x00; Byte.x80;
              Byte.x5f; Byte.x9b; Byte.x34; Byte.xfb]
             [Byte.x00; Byte.x00; Byte.xff; Byte.xff; Byte.x00; Byte.x00;
              Byte.x10; Byte.x00; Byte.x80; Byte.x00; Byte.x00; Byte.x80;
              Byte.x5f; Byte.x9b; Byte.x34; Byte.xfb]); reflexivity.
  - apply (is_uuid_16bit_compatible_octetwise Demo.delegate
             "a1b2c3d4-1234-5678-9abc-def012345678" Demo.client
             [Byte.xa1; Byte.xb2; Byte.xc3; Byte.xd4; Byte.x12; Byte.x34;
              Byte.x56; Byte.x78; Byte.x9a; Byte.xbc; Byte.xde; Byte.xf0;
              Byte.x12; Byte.x34; Byte.x56; Byte.x78]
             [Byte.x00; Byte.x00; Byte.xff; Byte.xff; Byte.x00; Byte.x00;
              Byte.x10; Byte.x00; Byte.x80; Byte.x00; Byte.x00; Byte.x80;
              Byte.x5f; Byte.x9b; Byte.x34; Byte.xfb]); reflexivity.
Defined.

(** ** Shortening outside the Base-UUID range *)

Lemma octet_within_ff b : octet_within b Byte.xff = true.
Proof. destruct b; reflexivity. Qed.

Lemma zero_tail_octets x :
  String.length x = 4%nat -> hex_string x ->
  exists b2 b3,
    CBUUID.octets ("0000" ++ x ++ "-0000-0000-0000-000000000000")
    = Some [Byte.x00; Byte.x00; b2; b3; Byte.x00; Byte.x00; Byte.x00; Byte.x00;
            Byte.x00; Byte.x00; Byte.x00; Byte.x00; Byte.x00; Byte.x00; Byte.x00; Byte.x00].
Proof.
  destruct x as [|a [|b [|c [|d [|? ?]]]]]; try discriminate. intros _ Hhex.
  unfold hex_string in Hhex. cbn [list_ascii_of_string] in Hhex.
  apply Forall_cons in Hhex as [[h1 H1] Hhex]. apply Forall_cons in Hhex as [[h2 H2] Hhex].
  apply Forall_cons in Hhex as [[h3 H3] Hhex]. apply Forall_cons in Hhex as [[h4 H4] _].
  destruct (byte_of_hex_pair h1 h2) as (b2 & Hb2 & _); eauto using hex_val_lt.
  destruct (byte_of_hex_pair h3 h4) as (b3 & Hb3 & _); eauto using hex_val_lt.
  exists b2, b3. unfold CBUUID.octets.
  change (list_ascii_of_string
            ("0000" ++ String a (String b (String c (String d ""))) ++
             "-0000-0000-0000-000000000000"))
    with (list_ascii_of_string "0000" ++ [a; b; c; d]
          ++ list_ascii_of_string "-0000-0000-0000-000000000000")%list.
  cbn [list_ascii_of_string app length].
  rewrite bool_decide_eq_true_2 by (repeat split; reflexivity).
  cbn [take drop app].
  eapply hex_pairs_cons; [reflexivity..|].
  eapply hex_pairs_cons; [reflexivity..|].
  eapply hex_pairs_cons; [eassumption..|].
  eapply hex_pairs_cons; [eassumption..|].
  reflexivity.
Qed.

(** X3. The mask test admits UUIDs that are not in the Bluetooth Base-UUID
    range: with CBUUID reading hex strings as [CBUUID.data] does, the UUID
    [0000xxxx-0000-0000-0000-000000000000] is shortened to [XXXX] for every
    four hex digits [xxxx], exactly as [0000xxxx-0000-1000-8000-00805F9B34FB]
    is; the two UUIDs get the same key. *)
Theorem zero_tail_uuid_is_shortened
    (app : Native.Delegate) (x : string) (c : Client.t) :
  (forall s, Native.CBUUID_data app s = CBUUID.data s) ->
  String.length x = 4%nat ->
  hex_string x ->
  Client.get_appropriate_uuid app ("0000" ++ x ++ "-0000-0000-0000-000000000000") c
  = (Ok (upper x), c) /\
  Client.get_appropriate_uuid app ("0000" ++ x ++ "-0000-1000-8000-00805F9B34FB") c
  = (Ok (upper x), c).
Proof.
  intros Happ Hlen Hhex. split; [|exact (full_form_normalises app x c Happ Hlen Hhex)].
  destruct (zero_tail_octets x Hlen Hhex) as (b2 & b3 & Hoct).
  assert (Hslice : slice 4 8 ("0000" ++ x ++ "-0000-0000-0000-000000000000") = x /\
                   String.length ("0000" ++ x ++ "-0000-0000-0000-000000000000") <> 4%nat).
  { destruct x as [|x0 [|x1 [|x2 [|x3 [|? ?]]]]]; try discriminate. split; [reflexivity|].
    intros H. vm_compute in H. discriminate H. }
  destruct Hslice as [Hslice Hlong].
  assert (Hbase : Native.CBUUID_data app Client.test_uuid
                  = Ok [Byte.x00; Byte.x00; Byte.xff; Byte.xff; Byte.x00; Byte.x00;
                        Byte.x10; Byte.x00; Byte.x80; Byte.x00; Byte.x00; Byte.x80;
                        Byte.x5f; Byte.x9b; Byte.x34; Byte.xfb])
    by (rewrite Happ; reflexivity).
  assert (Hoct' : Native.CBUUID_data app ("0000" ++ x ++ "-0000-0000-0000-000000000000")
                  = Ok [Byte.x00; Byte.x00; b2; b3; Byte.x00; Byte.x00; Byte.x00;
                        Byte.x00; Byte.x00; Byte.x00; Byte.x00; Byte.x00; Byte.x00;
                        Byte.x00; Byte.x00; Byte.x00])
    by (rewrite Happ; unfold CBUUID.data; now rewrite Hoct).
  rewrite (get_appropriate_uuid_masked app _ c _ _ Hlong Hbase Hoct').
  rewrite land_big_within by reflexivity.
  cbn [within_mask combine forallb fst snd]. rewrite !octet_within_ff.
  cbn. now rewrite Hslice.
Qed.

Lemma zero_tail_uuid_is_shortened_witness :
  Client.get_appropriate_uuid Demo.delegate "00002a37-0000-0000-0000-000000000000" Demo.client
  = (Ok "2A37", Demo.client).
Proof.
  refine (proj1 (zero_tail_uuid_is_shortened Demo.delegate "2a37" Demo.client _ _ _)).
  - intros s. reflexivity.
  - reflexivity.
  - repeat constructor; vm_compute; eauto.
Defined.

(** ** Integers and octets *)

Lemma octet_value i : Z.of_N (Byte.to_N (Conversions.octet i)) = i mod 256.
Proof.
  unfold Conversions.octet. pose proof (Z.mod_pos_bound i 256 ltac:(lia)) as Hm.
  destruct (Byte.of_N (Z.to_N (i mod 256))) as [b|] eqn:E.
  - apply Byte.to_of_N in E. rewrite E. lia.
  - apply Byte.of_N_None_iff in E. lia.
Qed.

Lemma octet_of_value b r :
  Conversions.octet (Z.of_N (Byte.to_N b) + 256 * r) = b.
Proof.
  unfold Conversions.octet. pose proof (octet_range b) as Hb.
  rewrite (Z.mul_comm 256 r), Z.mod_add, Z.mod_small by lia.
  rewrite N2Z.id. now rewrite Byte.of_to_N.
Qed.

Lemma from_bytes_little_octets n : forall i,
  from_bytes_little (Conversions.octets_little n i) = i mod 256 ^ Z.of_nat n.
Proof.
  induction n as [|n IH]; intros i.
  - cbn. now rewrite Z.mod_1_r.
  - cbn [Conversions.octets_little from_bytes_little].
    rewrite octet_value, IH, Nat2Z.inj_succ, Z.pow_succ_r by lia.
    rewrite Z.rem_mul_r by lia. reflexivity.
Qed.

Lemma octets_little_from_bytes bs :
  Conversions.octets_little (length bs) (from_bytes_little bs) = bs.
Proof.
  induction bs as [|b bs IH]; [reflexivity|].
  cbn [length Conversions.octets_little from_bytes_little].
  rewrite octet_of_value. f_equal.
  pose proof (octet_range b).
  rewrite (Z.mul_comm 256), Z.div_add, Z.div_small by lia. exact IH.
Qed.

Lemma octets_little_length n : forall i, length (Conversions.octets_little n i) = n.
Proof. induction n as [|n IH]; intros i; cbn; [reflexivity | now rewrite IH]. Qed.

Lemma to_bytes_big_value n i bs :
  Conversions.to_bytes_big n i = inr bs -> from_bytes_big bs = i /\ length bs = n.
Proof.
  unfold Conversions.to_bytes_big.
  destruct (Z.ltb_spec i 0) as [|Hi]; [discriminate|].
  destruct (Z.leb_spec (256 ^ Z.of_nat n) i) as [|Hn]; [discriminate|].
  intros [= <-]. split.
  - rewrite from_bytes_big_little, rev_involutive, from_bytes_little_octets.
    apply Z.mod_small. lia.
  - rewrite length_rev. apply octets_little_length.
Qed.

Lemma to_bytes_big_of_value bs :
  Conversions.to_bytes_big (length bs) (from_bytes_big bs) = inr bs.
Proof.
  unfold Conversions.to_bytes_big. pose proof (from_bytes_big_range bs) as H.
  destruct (Z.ltb_spec (from_bytes_big bs) 0); [lia|].
  destruct (Z.leb_spec (256 ^ Z.of_nat (length bs)) (from_bytes_big bs)); [lia|].
  f_equal. rewrite from_bytes_big_little, <- (length_rev bs), octets_little_from_bytes.
  apply rev_involutive.
Qed.

(** X4. [convert_uuid_to_int] gives a non-negative integer below
    [256 ^ n] for a UUID of [n] octets (below [2 ^ 128] for sixteen), and
    the integer determines the octets: two UUID strings with equally many
    octets and the same integer have the same octets. *)
Theorem convert_uuid_to_int_range_and_injective
    (app : Native.Delegate) (u1 u2 : string) (c : Client.t)
    (octets1 octets2 : list Byte.byte) :
  Native.CBUUID_data app u1 = Ok octets1 ->
  Native.CBUUID_data app u2 = Ok octets2 ->
  exists n1 n2,
    Client.convert_uuid_to_int app u1 c = (Ok n1, c) /\
    Client.convert_uuid_to_int app u2 c = (Ok n2, c) /\
    0 <= n1 < 256 ^ Z.of_nat (length octets1) /\
    (length octets1 = length octets2 -> n1 = n2 -> octets1 = octets2).
Proof.
  intros H1 H2. exists (from_bytes_big octets1), (from_bytes_big octets2).
  repeat split; try (now apply convert_uuid_to_int_ok); try apply from_bytes_big_range.
  intros Hlen Heq.
  pose proof (to_bytes_big_of_value octets1) as E1.
  pose proof (to_bytes_big_of_value octets2) as E2.
  rewrite Hlen, Heq, E2 in E1. now injection E1.
Qed.

Lemma convert_uuid_to_int_range_and_injective_witness :
  exists n1 n2,
    Client.convert_uuid_to_int Demo.delegate "2A37" Demo.client = (Ok n1, Demo.client) /\
    Client.convert_uuid_to_int Demo.delegate "2a37" Demo.client = (Ok n2, Demo.client) /\
    0 <= n1 < 256 ^ Z.of_nat (length [Byte.x2a; Byte.x37]) /\
    (length [Byte.x2a; Byte.x37] = length [Byte.x2a; Byte.x37] -> n1 = n2 ->
     [Byte.x2a; Byte.x37] = [Byte.x2a; Byte.x37]).
Proof.
  exact (convert_uuid_to_int_range_and_injective Demo.delegate "2A37" "2a37" Demo.client
           [Byte.x2a; Byte.x37] [Byte.x2a; Byte.x37] eq_refl eq_refl).
Defined.

(** ** From an integer to a UUID string and back *)

Lemma hex_upper_decodes b :
  CBUUID.hex_val (Conversions.hex_digit_upper (Byte.to_N b / 16)) = Some (Byte.to_N b / 16)%N /\
  CBUUID.hex_val (Conversions.hex_digit_upper (Byte.to_N b mod 16))
  = Some (Byte.to_N b mod 16)%N /\
  Byte.of_N (16 * (Byte.to_N b / 16) + Byte.to_N b mod 16) = Some b.
Proof. destruct b; vm_compute; auto. Qed.

Lemma hex_pairs_hex_upper b rest bs :
  CBUUID.hex_pairs rest = Some bs ->
  CBUUID.hex_pairs (Conversions.hex_digit_upper (Byte.to_N b / 16)
                    :: Conversions.hex_digit_upper (Byte.to_N b mod 16) :: rest)
  = Some (b :: bs).
Proof.
  intros Hrest. destruct (hex_upper_decodes b) as (Hhi & Hlo & Hb).
  eapply hex_pairs_cons; eassumption.
Qed.

(** What the instance [Conversions.UUIDString] prints for sixteen octets,
    [CBUUID.data] reads back as these octets. *)
Lemma UUIDString_read_back bs s :
  length bs = 16%nat -> Conversions.UUIDString bs = Ok s -> CBUUID.data s = Ok bs.
Proof.
  intros Hlen.
  do 16 (destruct bs as [|? bs]; [discriminate|]). destruct bs; [|discriminate].
  unfold Conversions.UUIDString. cbn [length]. intros [= <-].
  unfold CBUUID.data, CBUUID.octets. cbn [list_ascii_of_string length].
  rewrite bool_decide_eq_true_2 by (repeat split; reflexivity).
  cbn [take drop app].
  match goal with |- match ?e with _ => _ end = Ok ?l =>
    assert (E : e = Some l) by (repeat apply hex_pairs_hex_upper; reflexivity)
  end.
  now rewrite E.
Qed.

(** X5. [convert_int_to_uuid] raises [OverflowError] for a negative integer
    and for one of [2 ^ 128] or more, and otherwise hands CBUUID the sixteen
    octets of the integer; whenever CBUUID reads back the sixteen octets it
    prints, [convert_uuid_to_int] of the string [convert_int_to_uuid]
    returned is the integer again. *)
Theorem convert_int_to_uuid_round_trip
    (UUIDString : list Byte.byte -> Result string)
    (app : Native.Delegate) (i : Z) (c : Client.t) :
  (forall bs s, length bs = 16%nat -> UUIDString bs = Ok s ->
                Native.CBUUID_data app s = Ok bs) ->
  (i < 0 ->
   Conversions.convert_int_to_uuid UUIDString i c
   = (inl Conversions.cannot_convert_negative_int, c)) /\
  (2 ^ 128 <= i ->
   Conversions.convert_int_to_uuid UUIDString i c
   = (inl Conversions.int_too_big_to_convert, c)) /\
  (0 <= i < 2 ^ 128 ->
   exists bs, length bs = 16%nat /\ from_bytes_big bs = i /\
              Conversions.convert_int_to_uuid UUIDString i c = (inr (UUIDString bs), c)) /\
  (forall s, fst (Conversions.convert_int_to_uuid UUIDString i c) = inr (Ok s) ->
             Client.convert_uuid_to_int app s c = (Ok i, c)).
Proof.
  intros Hback. unfold Conversions.convert_int_to_uuid, Conversions.to_bytes_big.
  change (256 ^ Z.of_nat 16) with (2 ^ 128).
  destruct (Z.ltb_spec i 0) as [Hneg|Hpos].
  { repeat split; intros; try lia; try reflexivity; discriminate. }
  destruct (Z.leb_spec (2 ^ 128) i) as [Hbig|Hsmall].
  { repeat split; intros; try lia; try reflexivity; discriminate. }
  destruct (to_bytes_big_value 16 i (rev (Conversions.octets_little 16 i))) as [Hval Hlen].
  { unfold Conversions.to_bytes_big. change (256 ^ Z.of_nat 16) with (2 ^ 128).
    destruct (Z.ltb_spec i 0); [lia|]. destruct (Z.leb_spec (2 ^ 128) i); [lia|]. reflexivity. }
  repeat split; intros; try lia.
  - exists (rev (Conversions.octets_little 16 i)). repeat split; assumption.
  - cbn [fst] in H. injection H as H.
    rewrite (convert_uuid_to_int_ok app s c _ (Hback _ s Hlen H)). now rewrite Hval.
Qed.

Lemma convert_int_to_uuid_round_trip_witness :
  Conversions.convert_int_to_uuid Conversions.UUIDString (-1) Demo.client
  = (inl Conversions.cannot_convert_negative_int, Demo.client) /\
  Conversions.convert_int_to_uuid Conversions.UUIDString (2 ^ 128) Demo.client
  = (inl Conversions.int_too_big_to_convert, Demo.client) /\
  Client.convert_uuid_to_int Demo.delegate "00002A37-0000-1000-8000-00805F9B34FB" Demo.client
  = (Ok 0x00002A3700001000800000805F9B34FB, Demo.client).
Proof.
  assert (Hback : forall bs s, length bs = 16%nat -> Conversions.UUIDString bs = Ok s ->
                               Native.CBUUID_data Demo.delegate s = Ok bs)
    by (intros bs s; apply UUIDString_read_back).
  split; [|split].
  - apply (proj1 (convert_int_to_uuid_round_trip Conversions.UUIDString Demo.delegate
                    (-1) Demo.client Hback)). lia.
  - apply (proj1 (proj2 (convert_int_to_uuid_round_trip Conversions.UUIDString Demo.delegate
                           (2 ^ 128) Demo.client Hback))). lia.
  - apply (proj2 (proj2 (proj2 (convert_int_to_uuid_round_trip Conversions.UUIDString
                                  Demo.delegate 0x00002A3700001000800000805F9B34FB
                                  Demo.client Hback)))).
    vm_compute. reflexivity.
Defined.

(** ** The manufacturer value *)

Lemma append_empty_r s : s ++ "" = s.
Proof.
  induction s as [|ch s IH]; [reflexivity|].
  change (String ch (s ++ "") = String ch s). now rewrite IH.
Qed.

Lemma concat_empty_cons x xs : String.concat "" (x :: xs) = x ++ String.concat "" xs.
Proof.
  destruct xs; [|reflexivity]. change (x = x ++ ""). now rewrite append_empty_r.
Qed.

Lemma list_ascii_of_string_app s1 s2 :
  list_ascii_of_string (s1 ++ s2) = (list_ascii_of_string s1 ++ list_ascii_of_string s2)%list.
Proof.
  induction s1 as [|ch s1 IH]; [reflexivity|].
  change (ch :: list_ascii_of_string (s1 ++ s2)
          = ch :: (list_ascii_of_string s1 ++ list_ascii_of_string s2)%list).
  now rewrite IH.
Qed.

Lemma string_length_app s1 s2 :
  String.length (s1 ++ s2) = (String.length s1 + String.length s2)%nat.
Proof.
  induction s1 as [|ch s1 IH]; [reflexivity|].
  change (S (String.length (s1 ++ s2)) = S (String.length s1 + String.length s2)).
  now rewrite IH.
Qed.

(** One octet is written as exactly two lower-case hex digits that give the
    octet back. *)
Lemma padded_format_x b :
  (if (String.length (format_x b) =? 2)%nat then format_x b else "0" ++ format_x b)
  = String (hex_digit_lower (Byte.to_N b / 16))
      (String (hex_digit_lower (Byte.to_N b mod 16)) "") /\
  CBUUID.hex_val (hex_digit_lower (Byte.to_N b / 16)) = Some (Byte.to_N b / 16)%N /\
  CBUUID.hex_val (hex_digit_lower (Byte.to_N b mod 16)) = Some (Byte.to_N b mod 16)%N /\
  Byte.of_N (16 * (Byte.to_N b / 16) + Byte.to_N b mod 16) = Some b.
Proof. destruct b; vm_compute; auto. Qed.

Lemma manufacturer_digits (payload : list Byte.byte) :
  let text := String.concat ""
                (map (fun x => if (String.length (format_x x) =? 2)%nat then format_x x
                               else "0" ++ format_x x) payload) in
  String.length text = (2 * length payload)%nat /\
  CBUUID.hex_pairs (list_ascii_of_string text) = Some payload.
Proof.
  induction payload as [|b bs [IHlen IHdec]]; [split; reflexivity|].
  cbn zeta. cbn [map]. rewrite concat_empty_cons.
  destruct (padded_format_x b) as (-> & Hh & Hl & Hb).
  cbn zeta in IHlen, IHdec. split.
  - rewrite string_length_app, IHlen. cbn [String.length length]. lia.
  - rewrite list_ascii_of_string_app. cbn [list_ascii_of_string app].
    eapply hex_pairs_cons; eassumption.
Qed.


(** ** The scan loop *)

Lemma bind_raises {A B} (m : Client.M A) (k : A -> Client.M B) c e c' :
  m c = (Raise e, c') -> Client.bind m k c = (Raise e, c').
Proof. intros E. unfold Client.bind. now rewrite E. Qed.

Lemma company_id_little data : from_bytes_little (take 2 data) = company_id data.
Proof.
  destruct data as [|b0 [|b1 rest]]; unfold company_id;
    change (take 2 []) with (@nil Byte.byte) || change (take 2 [b0]) with [b0]
    || change (take 2 (b0 :: b1 :: rest)) with [b0; b1];
    cbn [from_bytes_little]; lia.
Qed.

Lemma company_id_range data : 0 <= company_id data < 65536.
Proof.
  destruct data as [|b0 [|b1 rest]]; cbn [company_id]; [lia| |].
  - pose proof (Byte.to_N_bounded b0). lia.
  - pose proof (Byte.to_N_bounded b0). pose proof (Byte.to_N_bounded b1). lia.
Qed.

Lemma scan_step_outcome app i p found adv :
  Native.advertisement_data_list app !! i = Some adv ->
  exists found',
    Client.scan_step app i p found = Ok found' /\
    ((advertises adv = false /\ found' = found) \/
     (advertises adv = true /\
      exists d data,
        found' = (found ++ [d])%list /\ details d = p /\
        adv !! "kCBAdvDataManufacturerData" = Some data /\ data <> [] /\
        scanned_device data d)).
Proof.
  intros Hadv. unfold Client.scan_step, advertises. rewrite Hadv.
  destruct (adv !! "kCBAdvDataManufacturerData") as [[|b bs]|]; eauto.
  eexists. split; [reflexivity|]. right. split; [reflexivity|].
  eexists _, (b :: bs). split; [reflexivity|]. split; [reflexivity|].
  split; [reflexivity|]. split; [discriminate|].
  unfold scanned_device. cbn [address name details manufacturer_data].
  split; [reflexivity|]. split; [reflexivity|]. split; [|split].
  - destruct (Native.name p) as [n|]; [|discriminate].
    destruct n; [discriminate|]. cbn. discriminate.
  - apply company_id_range.
  - eexists. rewrite company_id_little. split; [reflexivity|]. split; [reflexivity|].
    unfold Client.manufacturer_value.
    destruct (manufacturer_digits (drop 2 (b :: bs))) as [Hlen Hdec].
    cbn zeta in Hlen, Hdec. split; [|exact Hdec].
    rewrite Hlen, length_drop. reflexivity.
Qed.

Lemma scan_loop_index_error app ps : forall i found,
  (i <= length (Native.advertisement_data_list app))%nat ->
  (length (Native.advertisement_data_list app) < i + length ps)%nat ->
  Client.scan_loop app i ps found = Raise IndexError.
Proof.
  induction ps as [|p ps IH]; intros i found Hi Hlen; cbn [length] in Hlen; [lia|].
  cbn [Client.scan_loop].
  destruct (Native.advertisement_data_list app !! i) as [adv|] eqn:Hadv.
  - destruct (scan_step_outcome app i p found adv Hadv) as (found' & -> & _).
    apply lookup_lt_Some in Hadv. apply IH; lia.
  - unfold Client.scan_step. now rewrite Hadv.
Qed.

Lemma scan_loop_details app ps : forall i found found',
  Client.scan_loop app i ps found = Ok found' ->
  map details found'
  = (map details found
     ++ map fst (List.filter (fun pa => advertises (snd pa))
                   (combine ps (drop i (Native.advertisement_data_list app)))))%list.
Proof.
  induction ps as [|p ps IH]; intros i found found'; cbn [Client.scan_loop].
  - intros [= <-]. cbn. now rewrite app_nil_r.
  - destruct (Native.advertisement_data_list app !! i) as [adv|] eqn:Hadv.
    + destruct (scan_step_outcome app i p found adv Hadv)
        as (found1 & -> & [[Hno ->]|[Hyes (d & data & -> & Hd & _)]]);
        intros Hloop; rewrite (IH _ _ _ Hloop), (drop_S _ _ _ Hadv);
        cbn [combine List.filter snd]; [rewrite Hno | rewrite Hyes]; [reflexivity|].
      rewrite map_app. cbn [map fst]. rewrite Hd. now rewrite <- app_assoc.
    + unfold Client.scan_step. rewrite Hadv. discriminate.
Qed.

Lemma scan_loop_fields app ps : forall i found found',
  Client.scan_loop app i ps found = Ok found' ->
  forall d, In d found' -> In d found \/ scanned_at app i ps d.
Proof.
  induction ps as [|p ps IH]; intros i found found'; cbn [Client.scan_loop].
  - intros [= <-] d Hd. now left.
  - destruct (Native.advertisement_data_list app !! i) as [adv|] eqn:Hadv.
    + destruct (scan_step_outcome app i p found adv Hadv)
        as (found1 & -> & [[_ ->]|[_ (d1 & data & -> & Hp & Hkey & Hdata & Hd1)]]);
        intros Hloop d Hd;
        (destruct (IH _ _ _ Hloop d Hd)
           as [Hin|(j & adv' & data' & Hj & Hadv' & Hkey' & Hdata' & Hd')];
         [|right; exists (S j), adv', data'; rewrite <- Nat.add_succ_comm;
          repeat (split; [assumption|]); assumption]).
      * now left.
      * apply in_app_or in Hin. destruct Hin as [Hin|[<-|[]]]; [now left|].
        right. exists 0%nat, adv, data. rewrite Nat.add_0_r, Hp.
        repeat (split; [first [assumption | reflexivity]|]); assumption.
    + unfold Client.scan_step. rewrite Hadv. discriminate.
Qed.

(** X6. When the delegate has fewer advertisements than the scan returned
    peripherals, [scan_for_devices] raises [IndexError], whatever the
    advertisements hold, and so does [connect]; nothing but the scan call
    has been placed. *)
Theorem scan_for_devices_index_error
    (app : Native.Delegate) (timeout : Z) (c : Client.t)
    (peripherals : list Native.CBPeripheral) :
  Native.on_scanForPeripherals_ app timeout = Ok peripherals ->
  (length (Native.advertisement_data_list app) < length peripherals)%nat ->
  Client.scan_for_devices app timeout c
  = (Raise IndexError, Client.emit (Client.Call (Native.scanForPeripherals_ timeout)) c) /\
  (timeout = 10 ->
   Client.connect app c
   = (Raise IndexError, Client.emit (Client.Call (Native.scanForPeripherals_ 10)) c)).
Proof.
  intros Hscan Hlen.
  assert (Hrun : Client.scan_for_devices app timeout c
                 = (Raise IndexError,
                    Client.emit (Client.Call (Native.scanForPeripherals_ timeout)) c)).
  { rewrite scan_for_devices_run, Hscan.
    rewrite scan_loop_index_error by (cbn; lia). reflexivity. }
  split; [exact Hrun|]. intros ->. unfold Client.connect.
  now apply bind_raises.
Qed.

Lemma scan_for_devices_index_error_witness :
  Client.scan_for_devices Cases.one_advertisement 10 Demo.client
  = (Raise IndexError, Client.emit (Client.Call (Native.scanForPeripherals_ 10)) Demo.client) /\
  Client.connect Cases.one_advertisement Demo.client
  = (Raise IndexError, Client.emit (Client.Call (Native.scanForPeripherals_ 10)) Demo.client).
Proof.
  destruct (scan_for_devices_index_error Cases.one_advertisement 10 Demo.client
              [Demo.monitor; Demo.beacon] eq_refl ltac:(cbn; lia)) as [Hscan Hconnect].
  split; [exact Hscan | exact (Hconnect eq_refl)].
Defined.

(** X7. With an advertisement for every scanned peripheral,
    [scan_for_devices] returns one device for each peripheral whose
    advertisement at the same index has manufacturer data that is not empty,
    and for no other, in the order of the scan. *)
Theorem scan_for_devices_keeps_order
    (app : Native.Delegate) (timeout : Z) (c : Client.t)
    (peripherals : list Native.CBPeripheral) :
  Native.on_scanForPeripherals_ app timeout = Ok peripherals ->
  (length peripherals <= length (Native.advertisement_data_list app))%nat ->
  exists devices,
    Client.scan_for_devices app timeout c
    = (Ok devices, Client.emit (Client.Call (Native.scanForPeripherals_ timeout)) c) /\
    map details devices
    = map fst (List.filter (fun pa => advertises (snd pa))
                 (combine peripherals (Native.advertisement_data_list app))).
Proof.
  intros Hscan Hlen.
  destruct (scan_loop_total app peripherals 0 [] Hlen) as [devices Hloop].
  exists devices. split.
  - rewrite scan_for_devices_run, Hscan, Hloop. reflexivity.
  - rewrite (scan_loop_details app peripherals 0 [] devices Hloop). reflexivity.
Qed.

Lemma scan_for_devices_keeps_order_witness :
  exists devices,
    Client.scan_for_devices Demo.delegate 10 Demo.client
    = (Ok devices, Client.emit (Client.Call (Native.scanForPeripherals_ 10)) Demo.client) /\
    map details devices = [Demo.monitor].
Proof.
  refine (scan_for_devices_keeps_order Demo.delegate 10 Demo.client
            [Demo.beacon; Demo.monitor] eq_refl _).
  cbn. lia.
Defined.

(** X8. Every device [scan_for_devices] returns is the device of one of
    the scanned peripherals whose advertisement, at the same index, has
    manufacturer data that is not empty.  Its address is the peripheral's
    identifier; its name is the peripheral's, or ["Unknown"] when the
    peripheral has none or an empty one, so never empty; its manufacturer
    data has exactly one entry: the key is the first two octets of the
    advertised data read low octet first (the first octet when there is
    only one), a number from 0 to 65535, and the value is the lower-case
    hex dump of the octets after the first two, two digits an octet. *)
Theorem scan_for_devices_device_fields
    (app : Native.Delegate) (timeout : Z) (c : Client.t)
    (peripherals : list Native.CBPeripheral) (devices : list BLEDevice) :
  Native.on_scanForPeripherals_ app timeout = Ok peripherals ->
  fst (Client.scan_for_devices app timeout c) = Ok devices ->
  Forall (fun d =>
            exists (i : nat) (adv : Native.advertisement_data) (data : list Byte.byte),
              peripherals !! i = Some (details d) /\
              Native.advertisement_data_list app !! i = Some adv /\
              adv !! "kCBAdvDataManufacturerData" = Some data /\
              data <> [] /\
              scanned_device data d)
         devices.
Proof.
  intros Hscan. rewrite scan_for_devices_run, Hscan. cbn [fst]. intros Hloop.
  apply List.Forall_forall. intros d Hd.
  destruct (scan_loop_fields app peripherals 0 [] devices Hloop d Hd) as [[]|H].
  exact H.
Qed.

Lemma scan_for_devices_device_fields_witness :
  Forall (fun d =>
            exists (i : nat) (adv : Native.advertisement_data) (data : list Byte.byte),
              [Demo.beacon; Demo.monitor] !! i = Some (details d) /\
              Native.advertisement_data_list Demo.delegate !! i = Some adv /\
              adv !! "kCBAdvDataManufacturerData" = Some data /\
              data <> [] /\
              scanned_device data d)
    [ {| address := "7E5A1C0B-33D2-4F6E-9A10-0C2B4D6E8F01";
         name := "HRM";
         details := Demo.monitor;
         manufacturer_data := {[ 76 := "02a5" ]} |} ].
Proof.
  apply (scan_for_devices_device_fields Demo.delegate 10 Demo.client
           [Demo.beacon; Demo.monitor]).
  - reflexivity.
  - vm_compute. reflexivity.
Defined.

(** ** Discovery that fails *)

(** A loop that performs the steps of its first rounds and raises in a later
    one stops there. *)
Lemma for_each_prefix_raise {A T} (f : T -> A) (before : list T) (x : A) (after : list A)
    (body : A -> Client.M unit) (steps : T -> list Client.event)
    (steps_x : list Client.event) (e : exn) (P : T -> Prop) :
  Forall P before ->
  (forall t c, P t -> body (f t) c = (Ok tt, perform (steps t) c)) ->
  (forall c, body x c = (Raise e, perform steps_x c)) ->
  forall c, Client.for_each (map f before ++ x :: after)%list body c
            = (Raise e, perform (concat (map steps before) ++ steps_x)%list c).
Proof.
  intros HP Hok Hraise. induction HP as [|t before Ht _ IH]; intros c;
    cbn [map app concat Client.for_each].
  - now rewrite (bind_raises _ _ c e _ (Hraise c)).
  - rewrite (bind_ok _ _ c tt _ (Hok t c Ht)). rewrite IH.
    now rewrite perform_app, app_assoc.
Qed.

Section FailingDiscovery.

Variable app : Native.Delegate.

Lemma get_services_unfolded c :
  Client._services c = None ->
  Client.get_services app c
  = Client.bind (Client.await Native.discoverServices (Native.on_discoverServices app))
      (fun services =>
         Client.bind (Client.for_each services (service_body app))
           (fun _ => Client.bind (Client.modify (Client.set__services_resolved true))
                       (fun _ => Client.gets Client.self_services))) c.
Proof.
  intros Hcache. unfold Client.get_services.
  erewrite bind_ok by (unfold Client.gets; rewrite Hcache; reflexivity).
  reflexivity.
Qed.

Lemma service_body_ok (s : service_tree) c :
  discovers app s -> service_body app (fst s) c = (Ok tt, perform (service_steps s) c).
Proof. intros [H1 H2]. now apply service_round. Qed.

Lemma characteristic_body_raises ch e c :
  Native.on_discoverDescriptors_ app ch = Raise e ->
  characteristic_body app ch c
  = (Raise e, perform [Client.Call (Native.discoverDescriptors_ ch)] c).
Proof.
  intros H. unfold characteristic_body.
  apply bind_raises. now rewrite await_perform, H.
Qed.

Lemma service_body_raises_at_service s e c :
  Native.on_discoverCharacteristics_ app s = Raise e ->
  service_body app s c = (Raise e, perform [Client.Call (Native.discoverCharacteristics_ s)] c).
Proof.
  intros H. unfold service_body. apply bind_raises. now rewrite await_perform, H.
Qed.

Lemma service_body_raises_at_characteristic s (done : list characteristic_tree) ch rest e c :
  Native.on_discoverCharacteristics_ app s = Ok (map fst done ++ ch :: rest)%list ->
  Forall (fun t : characteristic_tree =>
            Native.on_discoverDescriptors_ app (fst t) = Ok (snd t)) done ->
  Native.on_discoverDescriptors_ app ch = Raise e ->
  service_body app s c
  = (Raise e,
     perform (Client.Call (Native.discoverCharacteristics_ s)
              :: Client.AddService (BleakGATTServiceCoreBluetooth s)
              :: concat (map characteristic_steps done)
              ++ [Client.Call (Native.discoverDescriptors_ ch)])%list c).
Proof.
  intros Hchs Hdone Hraise. unfold service_body.
  erewrite bind_ok by (rewrite await_perform, Hchs; reflexivity).
  erewrite bind_ok by apply add_service_perform.
  rewrite (for_each_prefix_raise fst done ch rest (characteristic_body app) characteristic_steps
             [Client.Call (Native.discoverDescriptors_ ch)] e _ Hdone).
  - now rewrite !perform_cons.
  - intros t c' Ht. now apply characteristic_round.
  - intros c'. now apply characteristic_body_raises.
Qed.

Lemma get_services_raises_in_round (done : list service_tree) s rest steps e c :
  Client._services c = None ->
  Native.on_discoverServices app = Ok (map fst done ++ s :: rest)%list ->
  Forall (discovers app) done ->
  (forall c', service_body app s c' = (Raise e, perform steps c')) ->
  Client.get_services app c
  = (Raise e, perform (discovery_order done ++ steps)%list c).
Proof.
  intros Hcache Hsvcs Hdone Hraise. rewrite (get_services_unfolded c Hcache).
  erewrite bind_ok by (rewrite await_perform, Hsvcs; reflexivity).
  apply bind_raises.
  rewrite (for_each_prefix_raise fst done s rest (service_body app) service_steps steps e _ Hdone).
  - rewrite perform_app. reflexivity.
  - intros t c' Ht. now apply service_body_ok.
  - exact Hraise.
Qed.

End FailingDiscovery.

(** X10. A delegate failure during discovery ends [get_services] with that
    failure at once: at [discoverServices] nothing is added; at the
    [discoverCharacteristics_] of a service, or at the [discoverDescriptors_]
    of a characteristic, the trace and the collection hold exactly the steps
    of the services (and of the characteristics of that service) discovered
    before, followed by the failing call; the additions made so far stay in
    the collection and [_services_resolved] is not set. *)
Theorem get_services_aborts_on_failure
    (app : Native.Delegate) (c : Client.t) (e : exn) :
  Client._services c = None ->
  (Native.on_discoverServices app = Raise e ->
   Client.get_services app c
   = (Raise e, perform [Client.Call Native.discoverServices] c)) /\
  (forall (done : list service_tree) (s : Native.CBService) (rest : list Native.CBService),
     Native.on_discoverServices app = Ok (map fst done ++ s :: rest)%list ->
     Forall (discovers app) done ->
     Native.on_discoverCharacteristics_ app s = Raise e ->
     Client.get_services app c
     = (Raise e,
        perform (discovery_order done
                 ++ [Client.Call (Native.discoverCharacteristics_ s)])%list c)) /\
  (forall (done : list service_tree) (s : Native.CBService) (rest : list Native.CBService)
          (done_here : list characteristic_tree) (ch : Native.CBCharacteristic)
          (rest_here : list Native.CBCharacteristic),
     Native.on_discoverServices app = Ok (map fst done ++ s :: rest)%list ->
     Forall (discovers app) done ->
     Native.on_discoverCharacteristics_ app s = Ok (map fst done_here ++ ch :: rest_here)%list ->
     Forall (fun t : characteristic_tree =>
               Native.on_discoverDescriptors_ app (fst t) = Ok (snd t)) done_here ->
     Native.on_discoverDescriptors_ app ch = Raise e ->
     Client.get_services app c
     = (Raise e,
        perform (discovery_order done
                 ++ Client.Call (Native.discoverCharacteristics_ s)
                 :: Client.AddService (BleakGATTServiceCoreBluetooth s)
                 :: concat (map characteristic_steps done_here)
                 ++ [Client.Call (Native.discoverDescriptors_ ch)])%list c)).
Proof.
  intros Hcache. repeat split.
  - intros Hraise. rewrite (get_services_unfolded app c Hcache).
    apply bind_raises. now rewrite await_perform, Hraise.
  - intros done s rest Hsvcs Hdone Hraise.
    apply (get_services_raises_in_round app done s rest _ e c Hcache Hsvcs Hdone).
    intros c'. now apply service_body_raises_at_service.
  - intros done s rest done_here ch rest_here Hsvcs Hdone Hchs Hhere Hraise.
    apply (get_services_raises_in_round app done s rest _ e c Hcache Hsvcs Hdone).
    intros c'. now apply (service_body_raises_at_characteristic app s done_here ch rest_here).
Qed.

Lemma get_services_aborts_on_failure_witness :
  Client.get_services Cases.failing_thermometer (Client.init "T")
  = (Raise (AdapterFailure "descriptors"),
     perform [Client.Call Native.discoverServices;
              Client.Call (Native.discoverCharacteristics_ Demo.health);
              Client.AddService (BleakGATTServiceCoreBluetooth Demo.health);
              Client.Call (Native.discoverDescriptors_ Demo.temperature);
              Client.AddCharacteristic (BleakGATTCharacteristicCoreBluetooth Demo.temperature);
              Client.AddDescriptor (BleakGATTDescriptorCoreBluetooth Demo.indication "2A1C");
              Client.AddDescriptor (BleakGATTDescriptorCoreBluetooth Demo.description "2A1C");
              Client.Call (Native.discoverDescriptors_ Demo.interval)]
       (Client.init "T")).
Proof.
  refine (proj2 (proj2 (get_services_aborts_on_failure Cases.failing_thermometer
                          (Client.init "T") (AdapterFailure "descriptors") eq_refl))
            [] Demo.health [Demo.battery]
            [(Demo.temperature, [Demo.indication; Demo.description])] Demo.interval []
            eq_refl _ eq_refl _ eq_refl).
  - constructor.
  - repeat constructor.
Defined.

(** ** Failures in [connect] *)

(** X11. [connect] hands on the delegate's failures: a failing scan ends it
    with nothing else done; a failing [connect_] ends it after
    [_device_info] has been set to the peripheral and before any discovery
    call; a failing discovery ends it with the failure of [get_services]. *)
Theorem connect_propagates_failures
    (app : Native.Delegate) (c : Client.t) (e : exn) :
  let c1 := Client.emit (Client.Call (Native.scanForPeripherals_ 10)) c in
  (Native.on_scanForPeripherals_ app 10 = Raise e ->
   Client.connect app c = (Raise e, c1)) /\
  (forall (devices before after : list BLEDevice) (first : BLEDevice),
     fst (Client.scan_for_devices app 10 c) = Ok devices ->
     devices = (before ++ first :: after)%list ->
     (forall d, In d before -> upper (address d) <> upper (Client.self_address c)) ->
     upper (address first) = upper (Client.self_address c) ->
     let c2 := Client.emit (Client.Call (Native.connect_ (details first)))
                 (Client.set__device_info (Some (details first)) c1) in
     (Native.on_connect_ app (details first) = Raise e ->
      Client.connect app c = (Raise e, c2)) /\
     (forall b c3,
        Native.on_connect_ app (details first) = Ok b ->
        Client.get_services app (Client.set_isConnected true c2) = (Raise e, c3) ->
        Client.connect app c = (Raise e, c3))).
Proof.
  intros c1. split.
  - intros Hscan. unfold Client.connect. apply bind_raises.
    rewrite scan_for_devices_run, Hscan. reflexivity.
  - intros devices before after first Hscan -> Hbefore Hfirst c2.
    assert (Hrun := connect_run app c _ Hscan). cbv zeta in Hrun.
    rewrite filter_first in Hrun.
    + split.
      * intros Hraise. rewrite Hrun, Hraise. reflexivity.
      * intros b c3 Hb Hget. rewrite Hrun, Hb. fold c1. fold c2. now rewrite Hget.
    + intros d Hd. apply String.eqb_neq. now apply Hbefore.
    + now apply String.eqb_eq.
Qed.

Lemma connect_propagates_failures_witness :
  Client.connect Cases.unreachable_monitor Demo.client
  = (Raise (AdapterFailure "connect"),
     Client.emit (Client.Call (Native.connect_ Demo.monitor))
       (Client.set__device_info (Some Demo.monitor)
          (Client.emit (Client.Call (Native.scanForPeripherals_ 10)) Demo.client))).
Proof.
  refine (proj1 (proj2 (connect_propagates_failures Cases.unreachable_monitor Demo.client
                          (AdapterFailure "connect"))
                   _ [] [] _ eq_refl eq_refl _ _) eq_refl).
  - intros d [].
  - vm_compute. reflexivity.
Defined.

(** ** What no sequence of operations does *)

Lemma frames_after app o : forall c, later c (after app o c).
Proof.
  intros c. destruct o; cbn [after].
  - apply frames_connect.
  - apply frames_disconnect.
  - apply later_refl.
  - apply frames_scan_for_devices.
  - apply frames_get_services.
  - apply frames_read_gatt_char.
  - apply frames_read_gatt_descriptor.
  - apply frames_write_gatt_char.
  - apply frames_write_gatt_descriptor.
  - apply frames_start_notify.
  - apply frames_stop_notify.
  - apply frames_get_appropriate_uuid.
  - rewrite is_uuid_16bit_compatible_state. apply later_refl.
  - rewrite convert_uuid_to_int_state. apply later_refl.
Qed.

Lemma later_after_all app ops : forall c, later c (after_all app ops c).
Proof.
  induction ops as [|o ops IH]; intros c; cbn [after_all fold_left].
  - apply later_refl.
  - eapply later_trans; [apply frames_after | apply IH].
Qed.

(** X12. No coroutine of the client assigns [_services] or [address]:
    after any sequence of operations on a client made by [__init__],
    whatever the delegate answers, [_services] is still [None], the address
    is the one given, the trace has only grown, and so the next
    [get_services] starts with the delegate's [discoverServices] again. *)
Theorem no_operation_sets_the_cache
    (app : Native.Delegate) (ops : list operation) (address : string) :
  let c := after_all app ops (Client.init address) in
  Client._services c = None /\
  Client.self_address c = address /\
  exists rest,
    Client.trace (snd (Client.get_services app c))
    = (Client.trace c ++ Client.Call Native.discoverServices :: rest)%list.
Proof.
  intros c. destruct (later_after_all app ops (Client.init address)) as [Ha Hs _].
  fold c in Ha, Hs. repeat split; [exact Hs | exact Ha |].
  apply get_services_discovers. exact Hs.
Qed.

(** ** After [disconnect] *)

(** X13. [disconnect] places one call on the delegate, its [disconnect],
    returns [True] when that call returns and raises what it raises
    otherwise; either way it leaves [self.services], [_services],
    [_services_resolved], [_device_info] and the address as they were.  The
    collection is not discarded: every lookup of a characteristic or of a
    descriptor finds after [disconnect] what it found before. *)
Theorem disconnect_keeps_the_collection
    (app : Native.Delegate) (c : Client.t) :
  let c' := snd (Client.disconnect app c) in
  fst (Client.disconnect app c)
  = match Native.on_disconnect app with Ok _ => Ok true | Raise e => Raise e end /\
  Client.trace c' = (Client.trace c ++ [Client.Call Native.disconnect])%list /\
  Client.self_services c' = Client.self_services c /\
  Client._services c' = Client._services c /\
  Client._services_resolved c' = Client._services_resolved c /\
  Client._device_info c' = Client._device_info c /\
  Client.self_address c' = Client.self_address c /\
  (forall key : Py.value,
     get_characteristic (Client.self_services c') key
     = get_characteristic (Client.self_services c) key) /\
  (forall handle : Z,
     get_descriptor (Client.self_services c') handle
     = get_descriptor (Client.self_services c) handle).
Proof.
  intros c'. subst c'.
  unfold Client.disconnect, Client.delegate_disconnect, Client.bind,
    Client.await, Client.modify, Client.ret.
  destruct (Native.on_disconnect app); cbn [fst snd]; repeat split.
Qed.

(** ** Looking up what was discovered *)

Lemma fold_insert_other {K V} `{Countable K} (key : V -> K) (ws : list V) :
  forall (m : gmap K V) (k : K),
  ~ In k (map key ws) ->
  fold_left (fun m w => <[key w := w]> m) ws m !! k = m !! k.
Proof.
  induction ws as [|a ws IH]; intros m k Hk; [reflexivity|].
  cbn [fold_left]. rewrite IH by (intros Hin; apply Hk; now right).
  apply lookup_insert_ne. intros E. apply Hk. now left.
Qed.

Lemma fold_insert_lookup {K V} `{Countable K} (key : V -> K) (ws : list V) :
  forall (m : gmap K V) (w : V),
  List.NoDup (map key ws) -> In w ws ->
  fold_left (fun m w => <[key w := w]> m) ws m !! key w = Some w.
Proof.
  induction ws as [|a ws IH]; intros m w Hnd Hin; [destruct Hin|].
  cbn [map] in Hnd. apply List.NoDup_cons_iff in Hnd as [Ha Hnd].
  cbn [fold_left]. destruct Hin as [->|Hin].
  - rewrite fold_insert_other by exact Ha. apply lookup_insert_eq.
  - now apply IH.
Qed.

Lemma populate_characteristics steps : forall coll,
  characteristics (populate steps coll)
  = fold_left (fun m w => <[characteristic_uuid w := w]> m)
      (added_characteristics steps) (characteristics coll).
Proof.
  induction steps as [|e steps IH]; intros coll; [reflexivity|].
  unfold populate in *. cbn [fold_left added_characteristics flat_map].
  rewrite IH. now destruct e.
Qed.

Lemma populate_descriptors steps : forall coll,
  descriptors (populate steps coll)
  = fold_left (fun m w => <[handle w := w]> m)
      (added_descriptors steps) (descriptors coll).
Proof.
  induction steps as [|e steps IH]; intros coll; [reflexivity|].
  unfold populate in *. cbn [fold_left added_descriptors flat_map].
  rewrite IH. now destruct e.
Qed.

Lemma added_characteristics_app s1 s2 :
  added_characteristics (s1 ++ s2)
  = (added_characteristics s1 ++ added_characteristics s2)%list.
Proof. apply flat_map_app. Qed.

Lemma added_descriptors_app s1 s2 :
  added_descriptors (s1 ++ s2) = (added_descriptors s1 ++ added_descriptors s2)%list.
Proof. apply flat_map_app. Qed.

Lemma added_characteristics_cons e steps :
  added_characteristics (e :: steps)
  = (match e with Client.AddCharacteristic w => [w] | _ => [] end
     ++ added_characteristics steps)%list.
Proof. reflexivity. Qed.

Lemma added_descriptors_cons e steps :
  added_descriptors (e :: steps)
  = (match e with Client.AddDescriptor w => [w] | _ => [] end
     ++ added_descriptors steps)%list.
Proof. reflexivity. Qed.

Lemma added_characteristics_concat {T} (f : T -> list Client.event)
    (g : T -> list BleakGATTCharacteristic) (l : list T) :
  (forall t, added_characteristics (f t) = g t) ->
  added_characteristics (concat (map f l)) = flat_map g l.
Proof.
  intros H. induction l as [|t l IH]; [reflexivity|].
  cbn [map concat flat_map]. now rewrite added_characteristics_app, H, IH.
Qed.

Lemma added_descriptors_concat {T} (f : T -> list Client.event)
    (g : T -> list BleakGATTDescriptor) (l : list T) :
  (forall t, added_descriptors (f t) = g t) ->
  added_descriptors (concat (map f l)) = flat_map g l.
Proof.
  intros H. induction l as [|t l IH]; [reflexivity|].
  cbn [map concat flat_map]. now rewrite added_descriptors_app, H, IH.
Qed.

Lemma added_characteristics_of_characteristic (ch : characteristic_tree) :
  added_characteristics (characteristic_steps ch)
  = [BleakGATTCharacteristicCoreBluetooth (fst ch)].
Proof.
  unfold characteristic_steps. rewrite !added_characteristics_cons. cbn [app].
  f_equal. induction (snd ch) as [|d ds IH]; [reflexivity|].
  cbn [map]. now rewrite added_characteristics_cons.
Qed.

Lemma added_descriptors_of_characteristic (ch : characteristic_tree) :
  added_descriptors (characteristic_steps ch)
  = map (fun d => BleakGATTDescriptorCoreBluetooth d
                    (Native.characteristic_UUIDString (fst ch))) (snd ch).
Proof.
  unfold characteristic_steps. rewrite !added_descriptors_cons. cbn [app].
  induction (snd ch) as [|d ds IH]; [reflexivity|].
  cbn [map]. rewrite added_descriptors_cons, IH. reflexivity.
Qed.

Lemma flat_map_singleton {A B} (f : A -> B) (l : list A) :
  flat_map (fun a => [f a]) l = map f l.
Proof. induction l as [|a l IH]; [reflexivity|]. cbn. now rewrite IH. Qed.

Lemma map_flat_map {A B C} (f : B -> C) (g : A -> list B) (l : list A) :
  map f (flat_map g l) = flat_map (fun a => map f (g a)) l.
Proof.
  induction l as [|a l IH]; [reflexivity|]. cbn [flat_map]. now rewrite map_app, IH.
Qed.

Lemma added_characteristics_of_tree services :
  added_characteristics (discovery_order services)
  = map BleakGATTCharacteristicCoreBluetooth (tree_characteristics services).
Proof.
  unfold discovery_order, tree_characteristics.
  rewrite added_characteristics_cons. cbn [app]. rewrite map_flat_map.
  apply added_characteristics_concat. intros s.
  unfold service_steps. rewrite !added_characteristics_cons. cbn [app].
  rewrite (added_characteristics_concat characteristic_steps
             (fun ch => [BleakGATTCharacteristicCoreBluetooth (fst ch)]))
    by apply added_characteristics_of_characteristic.
  rewrite (flat_map_singleton (fun ch : characteristic_tree =>
                                 BleakGATTCharacteristicCoreBluetooth (fst ch))).
  now rewrite map_map.
Qed.

Lemma added_descriptors_of_tree services :
  added_descriptors (discovery_order services)
  = map (fun p => BleakGATTDescriptorCoreBluetooth (snd p)
                    (Native.characteristic_UUIDString (fst p)))
      (tree_descriptors services).
Proof.
  unfold discovery_order, tree_descriptors.
  rewrite added_descriptors_cons. cbn [app]. rewrite map_flat_map.
  apply added_descriptors_concat. intros s.
  unfold service_steps. rewrite !added_descriptors_cons. cbn [app].
  rewrite map_flat_map.
  apply added_descriptors_concat. intros ch.
  rewrite added_descriptors_of_characteristic. now rewrite map_map.
Qed.

Lemma discovered_characteristic_lookup app services c ch :
  exposes app services ->
  Client._services c = None ->
  List.NoDup (map Native.characteristic_UUIDString (tree_characteristics services)) ->
  In ch (tree_characteristics services) ->
  get_characteristic (Client.self_services (snd (Client.get_services app c)))
    (Str (Native.characteristic_UUIDString ch))
  = Some (BleakGATTCharacteristicCoreBluetooth ch).
Proof.
  intros Hex Hcache Hnd Hin.
  rewrite (get_services_run app services c Hex Hcache).
  cbn [snd Client.self_services Client.set__services_resolved perform].
  unfold get_characteristic.
  rewrite populate_characteristics, added_characteristics_of_tree.
  apply (fold_insert_lookup characteristic_uuid
           (map BleakGATTCharacteristicCoreBluetooth (tree_characteristics services))
           _ (BleakGATTCharacteristicCoreBluetooth ch)).
  - now rewrite map_map.
  - now apply in_map.
Qed.

Lemma discovered_descriptor_lookup app services c ch d :
  exposes app services ->
  Client._services c = None ->
  List.NoDup (map (fun p => Native.descriptor_handle (snd p)) (tree_descriptors services)) ->
  In (ch, d) (tree_descriptors services) ->
  get_descriptor (Client.self_services (snd (Client.get_services app c)))
    (Native.descriptor_handle d)
  = Some (BleakGATTDescriptorCoreBluetooth d (Native.characteristic_UUIDString ch)).
Proof.
  intros Hex Hcache Hnd Hin.
  rewrite (get_services_run app services c Hex Hcache).
  cbn [snd Client.self_services Client.set__services_resolved perform].
  unfold get_descriptor.
  rewrite populate_descriptors, added_descriptors_of_tree.
  apply (fold_insert_lookup handle _ _
           (BleakGATTDescriptorCoreBluetooth d (Native.characteristic_UUIDString ch))).
  - now rewrite map_map.
  - apply (in_map (fun p => BleakGATTDescriptorCoreBluetooth (snd p)
                              (Native.characteristic_UUIDString (fst p))) _ (ch, d) Hin).
Qed.

(** X14. After a discovery that succeeded, every characteristic of the
    peripheral is found in the collection under its UUID string, and every
    descriptor under its handle, tagged with the UUID string of its
    characteristic, provided the UUID strings (the handles) differ from one
    another. *)
Theorem discovered_attributes_are_found
    (app : Native.Delegate) (services : list service_tree) (c : Client.t) :
  exposes app services ->
  Client._services c = None ->
  let collection := Client.self_services (snd (Client.get_services app c)) in
  (List.NoDup (map Native.characteristic_UUIDString (tree_characteristics services)) ->
   forall ch, In ch (tree_characteristics services) ->
     get_characteristic collection (Str (Native.characteristic_UUIDString ch))
     = Some (BleakGATTCharacteristicCoreBluetooth ch)) /\
  (List.NoDup (map (fun p => Native.descriptor_handle (snd p)) (tree_descriptors services)) ->
   forall ch d, In (ch, d) (tree_descriptors services) ->
     get_descriptor collection (Native.descriptor_handle d)
     = Some (BleakGATTDescriptorCoreBluetooth d (Native.characteristic_UUIDString ch))).
Proof.
  intros Hex Hcache collection. subst collection. split.
  - intros Hnd ch Hin. now apply (discovered_characteristic_lookup app services).
  - intros Hnd ch d Hin. now apply (discovered_descriptor_lookup app services).
Qed.

Lemma discovered_attributes_are_found_witness :
  get_characteristic
    (Client.self_services (snd (Client.get_services Demo.thermometer (Client.init "T"))))
    (Str "2A19")
  = Some (BleakGATTCharacteristicCoreBluetooth Demo.level) /\
  get_descriptor
    (Client.self_services (snd (Client.get_services Demo.thermometer (Client.init "T"))))
    21
  = Some (BleakGATTDescriptorCoreBluetooth Demo.description "2A1C").
Proof.
  assert (Hex : exposes Demo.thermometer
                  [(Demo.health, [(Demo.temperature, [Demo.indication; Demo.description]);
                                  (Demo.interval, [])]);
                   (Demo.battery, [(Demo.level, [Demo.format])])]).
  { split; [reflexivity|]. repeat constructor. }
  destruct (discovered_attributes_are_found Demo.thermometer _ (Client.init "T") Hex eq_refl)
    as [Hchar Hdesc].
  split.
  - apply (Hchar ltac:(repeat constructor; cbn; intuition discriminate) Demo.level).
    cbn. auto.
  - apply (Hdesc ltac:(repeat constructor; cbn; intuition discriminate)
             Demo.temperature Demo.description).
    cbn. auto.
Defined.

(** X15. Discovery and the UUID operations fit together: after a discovery
    that succeeded, with UUID strings that differ from one another,
    [read_gatt_char], [write_gatt_char] and [start_notify] called with a
    4-character string whose upper case is the UUID string of a discovered
    characteristic place exactly one call, on that characteristic's native
    object, and have the delegate's answer as outcome; with CBUUID reading
    hex strings as [CBUUID.data] does, the same holds for the full 128-bit
    form of the string. *)
Theorem uuid_operations_reach_discovered_characteristic
    (app : Native.Delegate) (services : list service_tree) (c : Client.t)
    (ch : Native.CBCharacteristic) (u : string) :
  exposes app services ->
  Client._services c = None ->
  List.NoDup (map Native.characteristic_UUIDString (tree_characteristics services)) ->
  In ch (tree_characteristics services) ->
  String.length u = 4%nat ->
  upper u = Native.characteristic_UUIDString ch ->
  let c' := snd (Client.get_services app c) in
  forall u', u' = u \/
             (u' = full_form u /\ hex_string u /\
              forall s, Native.CBUUID_data app s = CBUUID.data s) ->
    (forall use_cached,
       Client.read_gatt_char app u' use_cached c'
       = (Native.on_readCharacteristic_ app ch use_cached,
          Client.emit (Client.Call (Native.readCharacteristic_ ch use_cached)) c')) /\
    (forall data response,
       Client.write_gatt_char app u' data response c'
       = (match Native.on_writeCharacteristic_value_ app ch data with
          | Ok _ => Ok tt
          | Raise e => Raise e
          end,
          Client.emit (Client.Call (Native.writeCharacteristic_value_ ch data)) c')) /\
    (forall callback,
       Client.start_notify app u' callback c'
       = (match Native.on_startNotify_cb_ app ch callback with
          | Ok _ => Ok tt
          | Raise e => Raise e
          end,
          Client.emit (Client.Call (Native.startNotify_cb_ ch callback)) c')).
Proof.
  intros Hex Hcache Hnd Hin Hlen Hup c' u' Hu'.
  assert (Hfound : get_characteristic (Client.self_services c') (Str (upper u))
                   = Some (BleakGATTCharacteristicCoreBluetooth ch)).
  { rewrite Hup. now apply (discovered_characteristic_lookup app services). }
  assert (Hnorm : Client.get_appropriate_uuid app u' c' = (Ok (upper u), c')).
  { destruct Hu' as [->|(-> & Hhex & Happ)].
    - now apply get_appropriate_uuid_short.
    - now apply full_form_normalises. }
  repeat split; intros.
  - now rewrite read_gatt_char_run, Hnorm; cbn [fst]; rewrite Hfound.
  - now rewrite write_gatt_char_run, Hnorm; cbn [fst]; rewrite Hfound.
  - now rewrite start_notify_run, Hnorm; cbn [fst]; rewrite Hfound.
Qed.

Lemma uuid_operations_reach_discovered_characteristic_witness :
  Client.read_gatt_char Demo.thermometer "00002a19-0000-1000-8000-00805F9B34FB" true
    (snd (Client.get_services Demo.thermometer (Client.init "T")))
  = (Ok [],
     Client.emit (Client.Call (Native.readCharacteristic_ Demo.level true))
       (snd (Client.get_services Demo.thermometer (Client.init "T")))).
Proof.
  assert (Hex : exposes Demo.thermometer
                  [(Demo.health, [(Demo.temperature, [Demo.indication; Demo.description]);
                                  (Demo.interval, [])]);
                   (Demo.battery, [(Demo.level, [Demo.format])])]).
  { split; [reflexivity|]. repeat constructor. }
  refine (proj1 (uuid_operations_reach_discovered_characteristic Demo.thermometer _
                   (Client.init "T") Demo.level "2a19" Hex eq_refl _ _ eq_refl eq_refl
                   "00002a19-0000-1000-8000-00805F9B34FB" _) true).
  - repeat constructor; cbn; intuition discriminate.
  - cbn. auto.
  - right. split; [reflexivity|]. split.
    + repeat constructor; vm_compute; eauto.
    + intros s. reflexivity.
Defined.

(** ** Outcomes of the server's bracket *)

(** X16. The outcome of a block bracketed by [__aenter__] and [__aexit__]:
    when [start] raises, the block is not entered and [stop] is not run;
    once entered, [stop] is run, and the outcome is the exception of [stop]
    if it raises, otherwise the block's own value or exception, which
    [__aexit__] never suppresses. *)
Theorem server_bracket_outcomes
    {S : Type} {backend : Server.Backend S} {A : Type}
    (body : S -> Result A * S) (o : Server.t S) :
  (forall e s1,
     Server.start (Server.self o) = (Raise e, s1) ->
     Server.async_with body o
     = (Raise e, {| Server.self := s1; Server.services := Server.services o;
                    Server.trace := (Server.trace o ++ [Server.Start])%list |})) /\
  (forall r s1 s2 s3 out,
     Server.start (Server.self o) = (Ok r, s1) ->
     body s1 = (out, s2) ->
     (forall e', Server.stop s2 = (Raise e', s3) ->
                 fst (Server.async_with body o) = Raise e') /\
     (forall r', Server.stop s2 = (Ok r', s3) ->
                 fst (Server.async_with body o) = out)).
Proof.
  split.
  - intros e s1 Hstart. unfold Server.async_with. rewrite aenter_run, Hstart. reflexivity.
  - intros r s1 s2 s3 out Hstart Hbody.
    rewrite (async_with_run body o r s1 Hstart), Hbody. cbn [fst snd].
    split; intros ? Hstop; rewrite Hstop; cbn [fst]; now destruct out.
Qed.

Lemma server_bracket_outcomes_witness :
  fst (Server.async_with Demo.failing_block Demo.server) = Raise (BleakError "block failed") /\
  Server.async_with Demo.failing_block
    (Server.init {| Demo.started := 1; Demo.stopped := 0 |})
  = (Raise (BleakError "already started"),
     {| Server.self := {| Demo.started := 1; Demo.stopped := 0 |};
        Server.services := Service.empty;
        Server.trace := [Server.Start] |}).
Proof.
  split.
  - refine (proj2 (proj2 (server_bracket_outcomes Demo.failing_block Demo.server)
                     true {| Demo.started := 1; Demo.stopped := 0 |}
                     {| Demo.started := 1; Demo.stopped := 0 |}
                     {| Demo.started := 1; Demo.stopped := 1 |}
                     (Raise (BleakError "block failed")) _ _) true _); reflexivity.
  - refine (proj1 (server_bracket_outcomes Demo.failing_block
                     (Server.init {| Demo.started := 1; Demo.stopped := 0 |}))
              (BleakError "already started") {| Demo.started := 1; Demo.stopped := 0 |} _).
    reflexivity.
Defined.

(** ** Descriptors after discovery *)

(** X17. After a discovery that succeeded, with handles that differ from one
    another, [read_gatt_descriptor] and [write_gatt_descriptor] called with
    the handle of a discovered descriptor place exactly one call, on that
    descriptor's native object, with the caller's [use_cached] flag or data,
    and have the delegate's answer as outcome. *)
Theorem descriptor_operations_reach_discovered_descriptor
    (app : Native.Delegate) (services : list service_tree) (c : Client.t)
    (ch : Native.CBCharacteristic) (d : Native.CBDescriptor) :
  exposes app services ->
  Client._services c = None ->
  List.NoDup (map (fun p => Native.descriptor_handle (snd p)) (tree_descriptors services)) ->
  In (ch, d) (tree_descriptors services) ->
  let c' := snd (Client.get_services app c) in
  (forall use_cached,
     Client.read_gatt_descriptor app (Native.descriptor_handle d) use_cached c'
     = (Native.on_readDescriptor_ app d use_cached,
        Client.emit (Client.Call (Native.readDescriptor_ d use_cached)) c')) /\
  (forall data,
     Client.write_gatt_descriptor app (Native.descriptor_handle d) data c'
     = (match Native.on_writeDescriptor_value_ app d data with
        | Ok _ => Ok tt
        | Raise e => Raise e
        end,
        Client.emit (Client.Call (Native.writeDescriptor_value_ d data)) c')).
Proof.
  intros Hex Hcache Hnd Hin c'.
  pose proof (discovered_descriptor_lookup app services c ch d Hex Hcache Hnd Hin) as Hfound.
  fold c' in Hfound. split.
  - intros use_cached. unfold Client.read_gatt_descriptor, Client.bind, Client.gets.
    rewrite Hfound. reflexivity.
  - intros data. unfold Client.write_gatt_descriptor, Client.bind, Client.gets.
    rewrite Hfound. unfold Client.await, Client.ret. cbn [descriptor_obj
      BleakGATTDescriptorCoreBluetooth].
    now destruct (Native.on_writeDescriptor_value_ app d data).
Qed.

Lemma descriptor_operations_reach_discovered_descriptor_witness :
  Client.read_gatt_descriptor Demo.delegate 42 true
    (snd (Client.get_services Demo.delegate Demo.client))
  = (Ok [Byte.x01; Byte.x00],
     Client.emit (Client.Call (Native.readDescriptor_ Demo.config true))
       (snd (Client.get_services Demo.delegate Demo.client))).
Proof.
  assert (Hex : exposes Demo.delegate [(Demo.heart_rate, [(Demo.measurement, [Demo.config])])]).
  { split; [reflexivity|]. repeat constructor. }
  refine (proj1 (descriptor_operations_reach_discovered_descriptor Demo.delegate _
                   Demo.client Demo.measurement Demo.config Hex eq_refl _ _) true).
  - repeat constructor. cbn. intuition.
  - cbn. auto.
Defined.
